(** * Assets: copyable files of minishift (pkg/minikube/assets/vm_assets.go)

    A shallow embedding of [vm_assets.go] and of the part of Go's standard
    library it calls ([strconv.Atoi], [fmt.Sprintf], [path/filepath.Join],
    the [os] file API, [bytes.Reader], [io.Copy]), followed by the
    properties of the asset types and of [CopyFileLocal].

    The file system is a state: a name space of directories and regular
    files, an inode table, the table of [*os.File] objects and the table of
    [*bytes.Reader] objects.  Every Go function that touches it is a
    computation in the monad [M], which threads the state and can panic.
    Failures of the environment (permission denied, I/O errors) are decided
    by an oracle carried by the state, so that every error path of the code
    can be exercised. *)

From Stdlib Require Import ZArith Ascii String List Lia.
From Stdlib.Strings Require Import Byte.
From stdpp Require Import base option list gmap strings pretty.

Local Open Scope string_scope.
Local Open Scope list_scope.
Local Open Scope Z_scope.

(** ** Errors *)

(** [syscall.Errno] values the model distinguishes; [ECLOSED] stands for
    [os.ErrClosed], reported for a file that was closed. *)
Inductive Errno :=
| ENOENT | EACCES | EEXIST | ENOTDIR | EISDIR | ENOTEMPTY
| EBADF | EIO | EINVAL | EBUSY | ECLOSED.

(** [strconv.ErrSyntax] and [strconv.ErrRange]. *)
Inductive NumErr := ErrSyntax | ErrRange.

(** Go [error] values.  [ErrWrap msg cause] is what [errors.Wrapf] builds:
    its [Error()] text is [msg ++ ": " ++ cause.Error()]. *)
Inductive error :=
| ErrNew (msg : string)
| ErrWrap (msg : string) (cause : error)
| ErrNum (func num : string) (e : NumErr)
| ErrPath (op path : string) (e : Errno)
| ErrEOF
| ErrShortWrite.

#[global] Instance Errno_eq_dec : EqDecision Errno.
Proof. solve_decision. Defined.
#[global] Instance NumErr_eq_dec : EqDecision NumErr.
Proof. solve_decision. Defined.
#[global] Instance error_eq_dec : EqDecision error.
Proof. solve_decision. Defined.

(** [os.ErrInvalid], returned by the methods of a nil [*os.File]. *)
Definition os_ErrInvalid : error := ErrNew "invalid argument".

(** ** strconv.Atoi *)

Module strconv.

Definition intSize : Z := 64.
Definition maxUint64 : Z := 2 ^ 64 - 1.

Definition byte_of (c : ascii) : Z := Z.of_nat (nat_of_ascii c).

(** The digit loop of the fast path: [ch -= '0'] on a byte wraps around,
    [None] stands for the syntax error. *)
Fixpoint fast_digits (cs : list ascii) (n : Z) : option Z :=
  match cs with
  | [] => Some n
  | c :: cs' =>
      let ch := (byte_of c - 48) mod 256 in
      if 9 <? ch then None else fast_digits cs' (n * 10 + ch)
  end.

(** The loop of [ParseUint] for base 10 and 64 bits: a character that is
    not a decimal digit is a syntax error with value 0, an overflow is a
    range error with the largest value, reported where it happens. *)
Fixpoint ParseUint_loop (cs : list ascii) (n : Z) : Z * option NumErr :=
  match cs with
  | [] => (n, None)
  | c :: cs' =>
      let b := byte_of c in
      if (48 <=? b) && (b <=? 57) then
        let d := b - 48 in
        if maxUint64 / 10 + 1 <=? n then (maxUint64, Some ErrRange)
        else
          let n10 := n * 10 in
          let n1 := (n10 + d) mod 2 ^ 64 in
          if (n1 <? n10) || (maxUint64 <? n1) then (maxUint64, Some ErrRange)
          else ParseUint_loop cs' n1
      else (0, Some ErrSyntax)
  end.

Definition ParseUint (cs : list ascii) : Z * option NumErr :=
  match cs with
  | [] => (0, Some ErrSyntax)
  | _ => ParseUint_loop cs 0
  end.

Definition is_sign (c : ascii) : bool :=
  (Ascii.eqb c "+" || Ascii.eqb c "-")%bool.

(** [ParseInt(s, 10, 0)]. *)
Definition ParseInt (cs : list ascii) : Z * option NumErr :=
  match cs with
  | [] => (0, Some ErrSyntax)
  | c :: rest =>
      let neg := Ascii.eqb c "-" in
      let digits := if is_sign c then rest else cs in
      let '(un, err) := ParseUint digits in
      match err with
      | Some ErrSyntax => (0, Some ErrSyntax)
      | _ =>
          let cutoff := 2 ^ (intSize - 1) in
          if negb neg && (cutoff <=? un) then (cutoff - 1, Some ErrRange)
          else if neg && (cutoff <? un) then (- cutoff, Some ErrRange)
          else (if neg then - un else un, None)
      end
  end.

(** [Atoi(s)]: the parsed [int] and the error, a [*NumError] naming
    [Atoi] and the input. *)
Definition Atoi (s : string) : Z * option error :=
  let cs := list_ascii_of_string s in
  let num_error e := Some (ErrNum "Atoi" s e) in
  let sLen := Z.of_nat (List.length cs) in
  if (0 <? sLen) && (sLen <? 19) then
    match cs with
    | [] => (0, num_error ErrSyntax)
    | c :: rest =>
        let digits := if is_sign c then rest else cs in
        match digits with
        | [] => (0, num_error ErrSyntax)
        | _ =>
            match fast_digits digits 0 with
            | None => (0, num_error ErrSyntax)
            | Some n => (if Ascii.eqb c "-" then - n else n, None)
            end
        end
    end
  else
    let '(i64, err) := ParseInt cs in
    (i64, match err with Some e => num_error e | None => None end).

End strconv.

(** ** fmt.Sprintf and errors.Wrapf *)

Inductive fmt_arg := ArgString (s : string) | ArgInt (n : Z).

(** The operand of a [%s] verb: a string is printed as it is, an [int] is
    not a string and is printed as [%!s(int=N)]. *)
Definition fmt_s (a : fmt_arg) : string :=
  match a with
  | ArgString s => s
  | ArgInt n => "%!s(int=" +:+ pretty n +:+ ")"
  end.

(** [fmt.Sprintf] for formats whose only verb is [%s]; a verb without an
    operand prints [%!s(MISSING)]. *)
Fixpoint Sprintf (format : string) (args : list fmt_arg) : string :=
  match format with
  | String "%" (String "s" rest) =>
      match args with
      | a :: args' => fmt_s a +:+ Sprintf rest args'
      | [] => "%!s(MISSING)" +:+ Sprintf rest []
      end
  | String c rest => String c (Sprintf rest args)
  | EmptyString => EmptyString
  end.

(** [errors.Wrapf]: nil stays nil. *)
Definition Wrapf (err : option error) (format : string) (args : list fmt_arg)
  : option error :=
  match err with
  | None => None
  | Some e => Some (ErrWrap (Sprintf format args) e)
  end.

(** ** path/filepath *)

Module filepath.

(** [strings.Split(s, "/")]. *)
Fixpoint split (s : string) : list string :=
  match s with
  | EmptyString => [EmptyString]
  | String c s' =>
      if Ascii.eqb c "/" then EmptyString :: split s'
      else match split s' with
           | [] => [String c EmptyString]
           | x :: xs => String c x :: xs
           end
  end.

Definition rooted (s : string) : bool :=
  match s with String "/" _ => true | _ => false end.

(** One path element against the elements kept so far (last one first):
    empty and [.] elements are dropped, [..] removes the element before
    it, or is kept when there is none and the path is not rooted. *)
Definition step (is_rooted : bool) (kept : list string) (c : string)
  : list string :=
  if decide (c = "" ∨ c = ".") then kept
  else if decide (c = "..") then
    match kept with
    | top :: rest => if decide (top = "..") then c :: kept else rest
    | [] => if is_rooted then [] else [c]
    end
  else c :: kept.

Fixpoint join_with (sep : string) (l : list string) : string :=
  match l with
  | [] => ""
  | [x] => x
  | x :: xs => x +:+ sep +:+ join_with sep xs
  end.

(** [Clean]: the shortest equivalent path by lexical processing. *)
Definition Clean (path : string) : string :=
  if decide (path = "") then "."
  else
    let r := rooted path in
    let kept := rev (fold_left (step r) (split path) []) in
    let out := (if r then "/" else "") +:+ join_with "/" kept in
    if decide (out = "") then "." else out.

(** [Join(dir, name)]: leading empty elements are ignored, the rest is
    joined with the separator and cleaned. *)
Definition Join (a b : string) : string :=
  if decide (a = "") then (if decide (b = "") then "" else Clean b)
  else Clean (a +:+ "/" +:+ b).

End filepath.

(** ** The state: name space, inodes, open files, readers *)

(** An entry of the name space: a directory or a regular file with its
    inode number.  Paths are resolved to the list of their elements from
    the root; the root itself always is a directory. *)
Inductive Node := NDir | NFile (ino : nat).

(** A regular file: its bytes and its permission bits. *)
Record Inode := { i_data : list byte; i_mode : Z }.

(** An [*os.File] object: the name it was opened with, the inode it reads
    and writes ([None] for a directory), its offset, whether it was opened
    for writing and whether it is still open.  Objects are never reused: a
    closed file stays in the table, closed. *)
Record File := {
  f_name : string;
  f_ino : option nat;
  f_off : nat;
  f_write : bool;
  f_open : bool
}.

(** The calls into the operating system, as the trace records them and as
    the fault oracle decides them. *)
Inductive Op :=
| OpMkdirAll (name : string)
| OpStat (name : string)
| OpRemove (name : string)
| OpOpen (name : string)
| OpCreate (name : string)
| OpFstat (fd : nat)
| OpChmod (fd : nat)
| OpRead (fd : nat)
| OpWrite (fd : nat)
| OpClose (fd : nat).

#[global] Instance Op_eq_dec : EqDecision Op.
Proof. solve_decision. Defined.

Record World := {
  w_cwd : list string;                (* working directory, from the root *)
  w_umask : Z;
  w_dir_size : Z;                     (* the size stat reports for a directory *)
  w_names : gmap (list string) Node;
  w_inodes : gmap nat Inode;
  w_files : gmap nat File;            (* the *os.File objects *)
  w_readers : gmap nat (list byte);   (* the *bytes.Reader objects: unread bytes *)
  w_fault : Op -> option Errno;       (* which calls the environment fails *)
  w_trace : list Op                   (* the calls made so far, oldest first *)
}.

Definition with_names (n : gmap (list string) Node) (w : World) : World :=
  {| w_cwd := w_cwd w; w_umask := w_umask w; w_dir_size := w_dir_size w;
     w_names := n; w_inodes := w_inodes w; w_files := w_files w;
     w_readers := w_readers w; w_fault := w_fault w; w_trace := w_trace w |}.

Definition with_inodes (i : gmap nat Inode) (w : World) : World :=
  {| w_cwd := w_cwd w; w_umask := w_umask w; w_dir_size := w_dir_size w;
     w_names := w_names w; w_inodes := i; w_files := w_files w;
     w_readers := w_readers w; w_fault := w_fault w; w_trace := w_trace w |}.

Definition with_files (f : gmap nat File) (w : World) : World :=
  {| w_cwd := w_cwd w; w_umask := w_umask w; w_dir_size := w_dir_size w;
     w_names := w_names w; w_inodes := w_inodes w; w_files := f;
     w_readers := w_readers w; w_fault := w_fault w; w_trace := w_trace w |}.

Definition with_readers (r : gmap nat (list byte)) (w : World) : World :=
  {| w_cwd := w_cwd w; w_umask := w_umask w; w_dir_size := w_dir_size w;
     w_names := w_names w; w_inodes := w_inodes w; w_files := w_files w;
     w_readers := r; w_fault := w_fault w; w_trace := w_trace w |}.

Definition log (op : Op) (w : World) : World :=
  {| w_cwd := w_cwd w; w_umask := w_umask w; w_dir_size := w_dir_size w;
     w_names := w_names w; w_inodes := w_inodes w; w_files := w_files w;
     w_readers := w_readers w; w_fault := w_fault w;
     w_trace := w_trace w ++ [op] |}.

(** ** The monad of Go computations *)

(** A computation returns, panics, or runs out of the fuel given to a loop. *)
Inductive Res (A : Type) :=
| Ok (a : A)
| Panic (msg : string)
| Timeout.
Arguments Ok {A} a.
Arguments Panic {A} msg.
Arguments Timeout {A}.

Definition M (A : Type) : Type := World -> Res A * World.

#[global] Instance M_ret : MRet M := λ A a w, (Ok a, w).

#[global] Instance M_bind : MBind M := λ A B k m w,
  match m w with
  | (Ok a, w') => k a w'
  | (Panic msg, w') => (Panic msg, w')
  | (Timeout, w') => (Timeout, w')
  end.

Definition get : M World := λ w, (Ok w, w).
Definition modify (f : World -> World) : M unit := λ w, (Ok tt, f w).
Definition panic {A} (msg : string) : M A := λ w, (Panic msg, w).
Definition timeout {A} : M A := λ w, (Timeout, w).

(** The text of the run-time panic of a nil dereference. *)
Definition nil_dereference : string :=
  "runtime error: invalid memory address or nil pointer dereference".

(** A call into the operating system: it is recorded, and the oracle says
    whether the environment fails it.  The oracle is fixed for a run and
    answers by operation: the same call on the same name or object has the
    same fate each time.  A property that needs two calls of one operation
    to succeed therefore states the result of each. *)
Definition syscall (op : Op) : M (option Errno) :=
  λ w, (Ok (w_fault w op), log op w).

(** ** Package os *)

Module os.

Definition ModePerm : Z := 511.          (* 0777 *)
Definition ModeSetuid : Z := 2 ^ 23.
Definition ModeSetgid : Z := 2 ^ 22.
Definition ModeSticky : Z := 2 ^ 20.

(** [os.FileMode(i)]: the conversion of an [int] to [uint32]. *)
Definition FileMode (i : Z) : Z := i mod 2 ^ 32.

(** [syscallMode]: the permission bits of a [FileMode] and the three
    special bits moved to their places in the mode of the system. *)
Definition syscallMode (i : Z) : Z :=
  Z.lor (Z.lor (Z.lor (Z.land i ModePerm)
    (if Z.eqb (Z.land i ModeSetuid) 0 then 0 else 2048))
    (if Z.eqb (Z.land i ModeSetgid) 0 then 0 else 1024))
    (if Z.eqb (Z.land i ModeSticky) 0 then 0 else 512).

(** What the code reads of an [os.FileInfo]. *)
Record FileInfo := { Size : Z; IsDir : bool }.

(** The elements of a path from the root: a relative path starts at the
    working directory, [.] and empty elements are skipped, [..] goes up
    and stays at the root.  There are no symbolic links, and the
    resolution is that of the text of the path: an element followed by
    [..] is dropped whether or not it names a directory, and a trailing
    separator is ignored, where a kernel checks each element on its way. *)
Definition resolve (w : World) (name : string) : list string :=
  rev (fold_left (filepath.step true) (filepath.split name)
         (if filepath.rooted name then [] else rev (w_cwd w))).

Definition node_at (w : World) (p : list string) : option Node :=
  match p with
  | [] => Some NDir
  | _ => w_names w !! p
  end.

(** The non-empty prefixes of a path, shortest first, the path last. *)
Fixpoint ancestors (p : list string) : list (list string) :=
  match p with
  | [] => []
  | c :: p' => [c] :: map (cons c) (ancestors p')
  end.

Definition is_file (w : World) (p : list string) : bool :=
  match node_at w p with Some (NFile _) => true | _ => false end.

Definition has_entries (w : World) (p : list string) : bool :=
  bool_decide (Exists (λ q, p `prefix_of` q ∧ q ≠ p) (elements (dom (w_names w)))).

Definition data_of (w : World) (ino : nat) : list byte :=
  match w_inodes w !! ino with Some i => i_data i | None => [] end.

Definition info_of (w : World) (n : Node) : FileInfo :=
  match n with
  | NDir => {| Size := w_dir_size w; IsDir := true |}
  | NFile ino => {| Size := Z.of_nat (length (data_of w ino)); IsDir := false |}
  end.

(** The inode numbers in use: in the table, under a name, or held by a
    file object.  A new file gets a number outside this set. *)
Definition node_ino (n : Node) : option nat :=
  match n with NFile i => Some i | NDir => None end.

Definition used_inos (w : World) : gset nat :=
  dom (w_inodes w)
  ∪ list_to_set (omap (λ kv, node_ino kv.2) (map_to_list (w_names w)))
  ∪ list_to_set (omap (λ kv, f_ino kv.2) (map_to_list (w_files w))).

(** A new [*os.File] object. *)
Definition new_file (f : File) : M nat := λ w,
  let fd := fresh (dom (w_files w)) in
  (Ok fd, with_files (<[fd := f]> (w_files w)) w).

(** The object behind a non-nil [*os.File], when it is open. *)
Definition open_file (w : World) (fd : nat) : option File :=
  match w_files w !! fd with
  | Some f => if f_open f then Some f else None
  | None => None
  end.

Definition name_of (w : World) (fd : nat) : string :=
  match w_files w !! fd with Some f => f_name f | None => "" end.

(** [os.MkdirAll]: the directory and all its missing parents are made;
    it fails when an element of the path is a regular file, and then
    makes nothing.  Directories carry no mode in this model.  The
    directories made are those on the resolved path: an element that the
    path leaves again through [..] is not made, where the library makes
    it; and the error names the whole path, not the element that is a
    file.  The properties below say of the names only what holds either
    way: what exists stays, and what appears is a directory. *)
Definition MkdirAll (name : string) (perm : Z) : M (option error) :=
  e ← syscall (OpMkdirAll name);
  match e with
  | Some e => mret (Some (ErrPath "mkdir" name e))
  | None =>
      if decide (name = "") then mret (Some (ErrPath "mkdir" name ENOENT))
      else
        w ← get;
        let dirs := ancestors (resolve w name) in
        if existsb (is_file w) dirs
        then mret (Some (ErrPath "mkdir" name ENOTDIR))
        else
          _ ← modify (with_names (foldr (λ q m, <[q := NDir]> m) (w_names w) dirs));
          mret None
  end.

(** [os.Stat]. *)
Definition Stat (name : string) : M (option FileInfo * option error) :=
  e ← syscall (OpStat name);
  match e with
  | Some e => mret (None, Some (ErrPath "stat" name e))
  | None =>
      if decide (name = "") then mret (None, Some (ErrPath "stat" name ENOENT))
      else
        w ← get;
        match node_at w (resolve w name) with
        | Some n => mret (Some (info_of w n), None)
        | None => mret (None, Some (ErrPath "stat" name ENOENT))
        end
  end.

(** [os.Remove]: a file is unlinked (its inode lives on for the objects
    that hold it), an empty directory is removed. *)
Definition Remove (name : string) : M (option error) :=
  e ← syscall (OpRemove name);
  match e with
  | Some e => mret (Some (ErrPath "remove" name e))
  | None =>
      if decide (name = "") then mret (Some (ErrPath "remove" name ENOENT))
      else
        w ← get;
        let p := resolve w name in
        match node_at w p with
        | None => mret (Some (ErrPath "remove" name ENOENT))
        | Some (NFile _) =>
            _ ← modify (with_names (delete p (w_names w))); mret None
        | Some NDir =>
            if decide (p = []) then mret (Some (ErrPath "remove" name EBUSY))
            else if has_entries w p then mret (Some (ErrPath "remove" name ENOTEMPTY))
            else _ ← modify (with_names (delete p (w_names w))); mret None
        end
  end.

(** [os.Open]: open for reading. *)
Definition Open (name : string) : M (option nat * option error) :=
  e ← syscall (OpOpen name);
  match e with
  | Some e => mret (None, Some (ErrPath "open" name e))
  | None =>
      if decide (name = "") then mret (None, Some (ErrPath "open" name ENOENT))
      else
        w ← get;
        match node_at w (resolve w name) with
        | None => mret (None, Some (ErrPath "open" name ENOENT))
        | Some n =>
            fd ← new_file {| f_name := name; f_ino := node_ino n; f_off := 0;
                             f_write := false; f_open := true |};
            mret (Some fd, None)
        end
  end.

(** [os.Create]: [OpenFile(name, O_RDWR|O_CREATE|O_TRUNC, 0666)].  An
    existing file is truncated and keeps its inode and mode; a new file
    gets a fresh inode with mode [0666] less the umask. *)
Definition Create (name : string) : M (option nat * option error) :=
  e ← syscall (OpCreate name);
  match e with
  | Some e => mret (None, Some (ErrPath "open" name e))
  | None =>
      if decide (name = "") then mret (None, Some (ErrPath "open" name ENOENT))
      else
        w ← get;
        let p := resolve w name in
        match node_at w p with
        | Some NDir => mret (None, Some (ErrPath "open" name EISDIR))
        | Some (NFile ino) =>
            let mode := match w_inodes w !! ino with Some i => i_mode i | None => 0 end in
            _ ← modify (with_inodes (<[ino := {| i_data := []; i_mode := mode |}]> (w_inodes w)));
            fd ← new_file {| f_name := name; f_ino := Some ino; f_off := 0;
                             f_write := true; f_open := true |};
            mret (Some fd, None)
        | None =>
            match node_at w (removelast p) with
            | Some NDir =>
                let ino := fresh (used_inos w) in
                let mode := Z.land (syscallMode 438) (Z.lnot (w_umask w)) in
                _ ← modify (with_inodes (<[ino := {| i_data := []; i_mode := mode |}]> (w_inodes w)));
                _ ← modify (λ w, with_names (<[p := NFile ino]> (w_names w)) w);
                fd ← new_file {| f_name := name; f_ino := Some ino; f_off := 0;
                                 f_write := true; f_open := true |};
                mret (Some fd, None)
            | Some (NFile _) => mret (None, Some (ErrPath "open" name ENOTDIR))
            | None => mret (None, Some (ErrPath "open" name ENOENT))
            end
        end
  end.

(** *** Methods of [*os.File]; the receiver may be nil *)

Definition set_file (fd : nat) (f : File) : M unit :=
  modify (λ w, with_files (<[fd := f]> (w_files w)) w).

Definition zero_byte : byte := x00.

(** The bytes of a file after [bs] is written at offset [off]; a gap
    past the end reads as zeros. *)
Definition write_at (off : nat) (bs data : list byte) : list byte :=
  take off data ++ replicate (off - length data) zero_byte ++ bs
    ++ drop (off + length bs) data.

(** [File.Read] into a buffer of [n] bytes: the bytes read and the
    error.  An empty buffer reads nothing; no byte left is [io.EOF]. *)
Definition File_Read (f : option nat) (n : nat) : M (list byte * option error) :=
  match f with
  | None => mret ([], Some os_ErrInvalid)
  | Some fd =>
      w ← get;
      match open_file w fd with
      | None => mret ([], Some (ErrPath "read" (name_of w fd) ECLOSED))
      | Some h =>
          if decide (n = 0%nat) then mret ([], None)
          else
            e ← syscall (OpRead fd);
            match e, f_ino h with
            | Some e, _ => mret ([], Some (ErrPath "read" (f_name h) e))
            | None, None => mret ([], Some (ErrPath "read" (f_name h) EISDIR))
            | None, Some ino =>
                let bs := take n (drop (f_off h) (data_of w ino)) in
                match bs with
                | [] => mret ([], Some ErrEOF)
                | _ =>
                    _ ← set_file fd {| f_name := f_name h; f_ino := f_ino h;
                                       f_off := f_off h + length bs;
                                       f_write := f_write h; f_open := f_open h |};
                    mret (bs, None)
                end
            end
      end
  end.

(** [File.Write]: all the bytes are written at the offset, or the
    call fails and writes none.  The mode of the inode is kept as it is;
    a kernel may clear the set-user-id and set-group-id bits when a caller
    without privilege writes, so the properties below speak of the nine
    permission bits only. *)
Definition File_Write (f : option nat) (bs : list byte) : M (Z * option error) :=
  match f with
  | None => mret (0, Some os_ErrInvalid)
  | Some fd =>
      w ← get;
      match open_file w fd with
      | None => mret (0, Some (ErrPath "write" (name_of w fd) ECLOSED))
      | Some h =>
          e ← syscall (OpWrite fd);
          match e, f_ino h with
          | Some e, _ => mret (0, Some (ErrPath "write" (f_name h) e))
          | None, None => mret (0, Some (ErrPath "write" (f_name h) EBADF))
          | None, Some ino =>
              if f_write h then
                let mode := match w_inodes w !! ino with Some i => i_mode i | None => 0 end in
                _ ← modify (with_inodes
                      (<[ino := {| i_data := write_at (f_off h) bs (data_of w ino);
                                   i_mode := mode |}]> (w_inodes w)));
                _ ← set_file fd {| f_name := f_name h; f_ino := f_ino h;
                                   f_off := f_off h + length bs;
                                   f_write := f_write h; f_open := f_open h |};
                mret (Z.of_nat (length bs), None)
              else mret (0, Some (ErrPath "write" (f_name h) EBADF))
          end
      end
  end.

(** [File.Chmod]: the mode of the system is set on the inode. *)
Definition File_Chmod (f : option nat) (mode : Z) : M (option error) :=
  match f with
  | None => mret (Some os_ErrInvalid)
  | Some fd =>
      w ← get;
      match open_file w fd with
      | None => mret (Some (ErrPath "chmod" (name_of w fd) ECLOSED))
      | Some h =>
          e ← syscall (OpChmod fd);
          match e, f_ino h with
          | Some e, _ => mret (Some (ErrPath "chmod" (f_name h) e))
          | None, None => mret None
          | None, Some ino =>
              _ ← modify (with_inodes
                    (<[ino := {| i_data := data_of w ino;
                                 i_mode := syscallMode mode |}]> (w_inodes w)));
              mret None
          end
      end
  end.

(** [File.Stat]. *)
Definition File_Stat (f : option nat) : M (option FileInfo * option error) :=
  match f with
  | None => mret (None, Some os_ErrInvalid)
  | Some fd =>
      w ← get;
      match open_file w fd with
      | None => mret (None, Some (ErrPath "stat" (name_of w fd) ECLOSED))
      | Some h =>
          e ← syscall (OpFstat fd);
          match e with
          | Some e => mret (None, Some (ErrPath "stat" (f_name h) e))
          | None =>
              mret (Some (info_of w (match f_ino h with
                                     | Some ino => NFile ino
                                     | None => NDir
                                     end)), None)
          end
      end
  end.

(** [File.Close]: a nil receiver is [ErrInvalid] and no panic; the
    file is closed even when the system reports an error. *)
Definition File_Close (f : option nat) : M (option error) :=
  match f with
  | None => mret (Some os_ErrInvalid)
  | Some fd =>
      w ← get;
      match open_file w fd with
      | None => mret (Some (ErrPath "close" (name_of w fd) ECLOSED))
      | Some h =>
          e ← syscall (OpClose fd);
          _ ← set_file fd {| f_name := f_name h; f_ino := f_ino h;
                             f_off := f_off h;
                             f_write := f_write h; f_open := false |};
          mret (match e with
                | Some e => Some (ErrPath "close" (f_name h) e)
                | None => None
                end)
      end
  end.

End os.

(** ** bytes.Reader and io *)

(** [bytes.Reader.Read]: when nothing is left, [io.EOF], also for an
    empty buffer. *)
Definition bytes_Reader_Read (r : nat) (n : nat) : M (list byte * option error) :=
  w ← get;
  match default [] (w_readers w !! r) with
  | [] => mret ([], Some ErrEOF)
  | s =>
      _ ← modify (with_readers (<[r := drop n s]> (w_readers w)));
      mret (take n s, None)
  end.

(** The values of the interface [io.Reader] the assets hold: an open
    [*os.File] or a [*bytes.Reader].  These are the two kinds the package
    itself stores; a reader of another kind, put into a literal of the
    struct by a caller, is outside this development. *)
Inductive Reader :=
| FileReader (f : option nat)
| BytesReader (r : nat).

#[global] Instance Reader_eq_dec : EqDecision Reader.
Proof. solve_decision. Defined.

Definition Reader_Read (r : Reader) (n : nat) : M (list byte * option error) :=
  match r with
  | FileReader f => os.File_Read f n
  | BytesReader r => bytes_Reader_Read r n
  end.

Module io.

(** The size of the buffer [io.Copy] reads into: 32 KiB. *)
Definition copy_buf_size : nat := Z.to_nat 32768.

(** The loop of [io.Copy(dst, src)] for a destination [*os.File] and a
    source that only has [Read]: read a buffer, write what was read,
    stop at the first error; [io.EOF] ends the copy without an error.
    The loop is bounded by [fuel] reads. *)
Fixpoint copy_loop (fuel : nat) (dst : option nat)
    (src : nat -> M (list byte * option error)) (written : Z)
  : M (Z * option error) :=
  match fuel with
  | O => timeout
  | S fuel' =>
      '(buf, er) ← src copy_buf_size;
      '(written, ew) ←
        (match buf with
         | [] => mret (written, None)
         | _ =>
             '(nw, ew) ← os.File_Write dst buf;
             match ew with
             | Some _ => mret (written + nw, ew)
             | None =>
                 if decide (Z.of_nat (length buf) = nw) then mret (written + nw, None)
                 else mret (written + nw, Some ErrShortWrite)
             end
         end);
      match ew, er with
      | Some _, _ => mret (written, ew)
      | None, Some ErrEOF => mret (written, None)
      | None, Some _ => mret (written, er)
      | None, None => copy_loop fuel' dst src written
      end
  end.

Definition Copy (fuel : nat) (dst : option nat)
    (src : nat -> M (list byte * option error)) : M (Z * option error) :=
  copy_loop fuel dst src 0.

End io.

(** [defer d] around a function body: [d] runs when the body is left, by a
    return or by a panic, and what it returns is dropped. *)
Definition defer {A B} (d : M B) (body : M A) : M A := λ w,
  let '(r, w') := body w in
  match d w' with
  | (Ok _, w'') => (r, w'')
  | (Panic msg, w'') => (Panic msg, w'')
  | (Timeout, w'') => (Timeout, w'')
  end.

(** ** Package assets *)

(** The interface [CopyableFile]: an [io.Reader] with a length and the
    four pieces of metadata.  A method of an interface may have effects,
    so each one is a computation. *)
Class CopyableFile (T : Type) := {
  Read : T -> nat -> M (list byte * option error);
  GetLength : T -> M Z;
  GetAssetName : T -> M string;
  GetTargetDir : T -> M string;
  GetTargetName : T -> M string;
  GetPermissions : T -> M string
}.

Record BaseAsset := {
  data : list byte;
  reader : option Reader;
  Length : Z;
  AssetName : string;
  TargetDir : string;
  TargetName : string;
  Permissions : string
}.

Definition BaseAsset_GetAssetName (b : BaseAsset) : M string :=
  mret (AssetName b).

Definition BaseAsset_GetTargetDir (b : BaseAsset) : M string :=
  mret (TargetDir b).

Definition BaseAsset_GetTargetName (b : BaseAsset) : M string :=
  mret (TargetName b).

Definition BaseAsset_GetPermissions (b : BaseAsset) : M string :=
  mret (Permissions b).

Record FileAsset := { FileAsset_base : BaseAsset }.

(** [NewFileAsset]: the asset or nil, and the error. *)
Definition NewFileAsset (assetName targetDir targetName permissions : string)
  : M (option FileAsset * option error) :=
  let f := {| data := []; reader := None; Length := 0;
              AssetName := assetName; TargetDir := targetDir;
              TargetName := targetName; Permissions := permissions |} in
  '(file, err) ← os.Open (AssetName f);
  match err with
  | Some _ =>
      mret (None, Wrapf err "Error opening file asset: %s" [ArgString (AssetName f)])
  | None =>
      mret (Some {| FileAsset_base :=
                      {| data := data f; reader := Some (FileReader file);
                         Length := Length f; AssetName := AssetName f;
                         TargetDir := TargetDir f; TargetName := TargetName f;
                         Permissions := Permissions f |} |}, None)
  end.

Definition FileAsset_GetLength (f : FileAsset) : M Z :=
  '(file, err) ← os.Open (AssetName (FileAsset_base f));
  defer (os.File_Close file)
    (match err with
     | Some _ => mret 0
     | None =>
         '(fi, err) ← os.File_Stat file;
         match err, fi with
         | Some _, _ => mret 0
         | None, Some fi => mret (os.Size fi)
         | None, None => panic nil_dereference
         end
     end).

Definition FileAsset_Read (f : FileAsset) (p : nat) : M (list byte * option error) :=
  match reader (FileAsset_base f) with
  | None =>
      mret ([], Some (ErrNew "Error attempting FileAsset.Read, FileAsset.reader uninitialized"))
  | Some r => Reader_Read r p
  end.

#[global] Instance FileAsset_CopyableFile : CopyableFile FileAsset := {|
  Read := FileAsset_Read;
  GetLength := FileAsset_GetLength;
  GetAssetName f := BaseAsset_GetAssetName (FileAsset_base f);
  GetTargetDir f := BaseAsset_GetTargetDir (FileAsset_base f);
  GetTargetName f := BaseAsset_GetTargetName (FileAsset_base f);
  GetPermissions f := BaseAsset_GetPermissions (FileAsset_base f)
|}.

Record MemoryAsset := { MemoryAsset_base : BaseAsset }.

Definition MemoryAsset_GetLength (m : MemoryAsset) : M Z :=
  mret (Length (MemoryAsset_base m)).

(** A method call on a nil interface value panics. *)
Definition MemoryAsset_Read (m : MemoryAsset) (p : nat) : M (list byte * option error) :=
  match reader (MemoryAsset_base m) with
  | None => panic nil_dereference
  | Some r => Reader_Read r p
  end.

#[global] Instance MemoryAsset_CopyableFile : CopyableFile MemoryAsset := {|
  Read := MemoryAsset_Read;
  GetLength := MemoryAsset_GetLength;
  GetAssetName m := BaseAsset_GetAssetName (MemoryAsset_base m);
  GetTargetDir m := BaseAsset_GetTargetDir (MemoryAsset_base m);
  GetTargetName m := BaseAsset_GetTargetName (MemoryAsset_base m);
  GetPermissions m := BaseAsset_GetPermissions (MemoryAsset_base m)
|}.

Definition quote : string := String (ascii_of_nat 34) EmptyString.
Definition newline : string := String (ascii_of_nat 10) EmptyString.

Definition copy_error_format : string :=
  "error copying file %s to target location:" +:+ newline +:+
  "do you have the correct permissions?  The none driver requires sudo for the "
  +:+ quote +:+ "start" +:+ quote +:+ " command".

(** [CopyFileLocal]; [fuel] bounds the reads of [io.Copy]. *)
Definition CopyFileLocal {T} `{CopyableFile T} (fuel : nat) (f : T) : M (option error) :=
  dir ← GetTargetDir f;
  err ← os.MkdirAll dir os.ModePerm;
  match err with
  | Some _ =>
      dir ← GetTargetDir f;
      mret (Wrapf err "error making dirs for %s" [ArgString dir])
  | None =>
      dir ← GetTargetDir f;
      name ← GetTargetName f;
      let targetPath := filepath.Join dir name in
      '(_, err) ← os.Stat targetPath;
      err ← (match err with
             | None => os.Remove targetPath
             | Some _ => mret None
             end);
      match err with
      | Some _ => mret (Wrapf err "error removing file %s" [ArgString targetPath])
      | None =>
          '(target, err) ← os.Create targetPath;
          match err with
          | Some _ => mret (Wrapf err "error creating file at %s" [ArgString targetPath])
          | None =>
              permissions ← GetPermissions f;
              let '(perms, err) := strconv.Atoi permissions in
              match err with
              | Some _ =>
                  mret (Wrapf err "error converting permissions %s to integer" [ArgInt perms])
              | None =>
                  err ← os.File_Chmod target (os.FileMode perms);
                  match err with
                  | Some _ =>
                      mret (Wrapf err "error changing file permissions for %s"
                              [ArgString targetPath])
                  | None =>
                      '(_, err) ← io.Copy fuel target (Read f);
                      match err with
                      | Some _ => mret (Wrapf err copy_error_format [ArgString targetPath])
                      | None => os.File_Close target
                      end
                  end
              end
          end
      end
  end.

(** A value of the interface [CopyableFile] made in this package: a
    [*FileAsset] or a [*MemoryAsset].  Its methods are those of the value
    it holds. *)
Inductive Asset :=
| OfFile (f : FileAsset)
| OfMemory (m : MemoryAsset).

Definition asset_base (a : Asset) : BaseAsset :=
  match a with
  | OfFile f => FileAsset_base f
  | OfMemory m => MemoryAsset_base m
  end.

#[global] Instance Asset_CopyableFile : CopyableFile Asset := {|
  Read a := match a with OfFile f => Read f | OfMemory m => Read m end;
  GetLength a := match a with OfFile f => GetLength f | OfMemory m => GetLength m end;
  GetAssetName a :=
    match a with OfFile f => GetAssetName f | OfMemory m => GetAssetName m end;
  GetTargetDir a :=
    match a with OfFile f => GetTargetDir f | OfMemory m => GetTargetDir m end;
  GetTargetName a :=
    match a with OfFile f => GetTargetName f | OfMemory m => GetTargetName m end;
  GetPermissions a :=
    match a with OfFile f => GetPermissions f | OfMemory m => GetPermissions m end
|}.

(** The path [CopyFileLocal] writes an asset to. *)
Definition target_path (a : Asset) : string :=
  filepath.Join (TargetDir (asset_base a)) (TargetName (asset_base a)).

(** ** Worked states *)

Definition no_fault : Op -> option Errno := λ _, None.

(** An empty disk: only the root. *)
Definition empty_world : World :=
  {| w_cwd := []; w_umask := 18; w_dir_size := 4096;
     w_names := ∅; w_inodes := ∅; w_files := ∅; w_readers := ∅;
     w_fault := no_fault; w_trace := [] |}.

Definition bytes_of (s : string) : list byte := list_byte_of_string s.

(** A regular file [name] with content [s] and mode [mode] added to a
    state, its directory having been made. *)
Definition add_file (name : string) (s : string) (mode : Z) (w : World) : World :=
  let p := os.resolve w name in
  let ino := fresh (os.used_inos w) in
  with_inodes (<[ino := {| i_data := bytes_of s; i_mode := mode |}]> (w_inodes w))
    (with_names (<[p := NFile ino]>
       (foldr (λ q m, <[q := NDir]> m) (w_names w) (os.ancestors (removelast p)))) w).

Definition file_at (w : World) (name : string) : option Inode :=
  match os.node_at w (os.resolve w name) with
  | Some (NFile ino) => w_inodes w !! ino
  | _ => None
  end.

(** ** Vocabulary of the specifications *)

(** The part of the state a call cannot change: the working directory, the
    umask, the size of directories and the oracle. *)
Definition same_env (w w1 : World) : Prop :=
  w_cwd w1 = w_cwd w ∧ w_umask w1 = w_umask w ∧
  w_dir_size w1 = w_dir_size w ∧ w_fault w1 = w_fault w.

(** The file object [os.Create] returns. *)
Definition created (name : string) (ino : nat) : File :=
  {| f_name := name; f_ino := Some ino; f_off := 0; f_write := true; f_open := true |}.

(** The bytes a reader has yet to yield: for a file, what lies between its
    offset and the end of its inode; nothing for a closed file or a
    directory. *)
Definition unread (w : World) (r : Reader) : list byte :=
  match r with
  | FileReader (Some fd) =>
      match os.open_file w fd with
      | Some h =>
          match f_ino h with
          | Some ino => drop (f_off h) (os.data_of w ino)
          | None => []
          end
      | None => []
      end
  | FileReader None => []
  | BytesReader r => default [] (w_readers w !! r)
  end.

(** A list of calls that only reads and writes open files. *)
Definition is_io (op : Op) : Prop :=
  match op with OpRead _ | OpWrite _ => True | _ => False end.

Definition advance (h : File) (n : nat) : File :=
  {| f_name := f_name h; f_ino := f_ino h; f_off := f_off h + n;
     f_write := f_write h; f_open := f_open h |}.

(** The byte stream of an asset: what its reader has yet to yield. *)
Definition stream (w : World) (a : Asset) : list byte :=
  match reader (asset_base a) with
  | Some r => unread w r
  | None => []
  end.

(** The reader of an asset does not share the file object [fdt] nor the
    inode [new]. *)
Definition apart (w : World) (r : Reader) (fdt new : nat) : Prop :=
  match r with
  | FileReader (Some fdr) =>
      fdr ≠ fdt ∧ ∀ h, w_files w !! fdr = Some h -> f_ino h ≠ Some new
  | _ => True
  end.


(** The error [CopyFileLocal] returns when the step named by [format] fails
    with [cause]. *)
Definition step_error (format : string) (arg : fmt_arg) (cause : error) : error :=
  ErrWrap (Sprintf format [arg]) cause.

(** The removal [CopyFileLocal] makes, or not, after the existence check:
    [if _, err := os.Stat(targetPath); err == nil], then [os.Remove]. *)
Definition remove_if_found (path : string) (stat_err : option error) : M (option error) :=
  match stat_err with
  | None => os.Remove path
  | Some _ => mret None
  end.

(** The steps of [CopyFileLocal] that follow the creation of the
    destination, [fd] being the file object [os.Create] returned. *)
Definition copy_tail (a : Asset) (fuel : nat) (fd : nat) : M (option error) :=
  let path := target_path a in
  let '(perms, err) := strconv.Atoi (Permissions (asset_base a)) in
  match err with
  | Some _ =>
      mret (Wrapf err "error converting permissions %s to integer" [ArgInt perms])
  | None =>
      err ← os.File_Chmod (Some fd) (os.FileMode perms);
      match err with
      | Some _ =>
          mret (Wrapf err "error changing file permissions for %s" [ArgString path])
      | None =>
          '(_, err) ← io.Copy fuel (Some fd) (Read a);
          match err with
          | Some _ => mret (Wrapf err copy_error_format [ArgString path])
          | None => os.File_Close (Some fd)
          end
      end
  end.

(** The calls [CopyFileLocal] makes up to the creation of the destination,
    [stat_err] being the error of the existence check. *)
Definition prefix_ops (a : Asset) (stat_err : option error) : list Op :=
  [OpMkdirAll (TargetDir (asset_base a)); OpStat (target_path a)]
  ++ match stat_err with None => [OpRemove (target_path a)] | Some _ => [] end
  ++ [OpCreate (target_path a)].

(** A call on an open file object. *)
Definition is_file_op (op : Op) : Prop :=
  match op with
  | OpChmod _ | OpRead _ | OpWrite _ | OpClose _ => True
  | _ => False
  end.


(** A state with the reader of a memory asset over [s]. *)
Definition with_buffer (s : string) (w : World) : World :=
  with_readers (<[0%nat := bytes_of s]> (w_readers w)) w.

(** A state whose environment fails the existence check of [name] with
    [EACCES] and nothing else. *)
Definition deny_stat (name : string) (w : World) : World :=
  {| w_cwd := w_cwd w; w_umask := w_umask w; w_dir_size := w_dir_size w;
     w_names := w_names w; w_inodes := w_inodes w; w_files := w_files w;
     w_readers := w_readers w;
     w_fault := λ op, if decide (op = OpStat name) then Some EACCES else w_fault w op;
     w_trace := w_trace w |}.

(** The asset of the scenario, from memory: [config.yaml], ten bytes,
    permissions [0644], to be copied to [/tmp/out/config.yaml]. *)
Definition config_asset : Asset :=
  OfMemory {| MemoryAsset_base :=
    {| data := bytes_of "key: value"; reader := Some (BytesReader 0); Length := 10;
       AssetName := "config.yaml"; TargetDir := "/tmp/out";
       TargetName := "config.yaml"; Permissions := "0644" |} |}.

(** A disk where [/tmp/out/config.yaml] already holds something else. *)
Definition stale_world : World :=
  with_buffer "key: value"
    (add_file "/tmp/out/config.yaml" "an older and longer content" 384 empty_world).

(** The scenario on disk: [config.yaml] holds [key: value], the asset is
    built by [NewFileAsset] and copied. *)
Definition config_world : World := add_file "config.yaml" "key: value" 420 empty_world.

Definition copy_config_from_disk : M (option error) :=
  '(f, err) ← NewFileAsset "config.yaml" "/tmp/out" "config.yaml" "0644";
  match f with
  | Some f => CopyFileLocal 2 f
  | None => mret err
  end.

(** File modes written in octal. *)
Definition octal (a b c : Z) : Z := a * 64 + b * 8 + c.

(** The error of [FileAsset.Read] on an asset without a reader. *)
Definition reader_uninitialized : error :=
  ErrNew "Error attempting FileAsset.Read, FileAsset.reader uninitialized".

(** An asset whose permission string is a number too large for an [int]. *)
Definition huge_perm_asset : Asset :=
  OfMemory {| MemoryAsset_base :=
    {| data := bytes_of "key: value"; reader := Some (BytesReader 0); Length := 10;
       AssetName := "config.yaml"; TargetDir := "/tmp/out";
       TargetName := "config.yaml"; Permissions := "9223372036854775808" |} |}.

(** The text of the conversion error for a parsed value [n]. *)
Definition conversion_message (n : Z) : string :=
  "error converting permissions %!s(int=" +:+ pretty n +:+ ") to integer".

(** [n] length queries in a row, and reads into buffers of the sizes [ps]
    in a row. *)
Fixpoint lengths (f : FileAsset) (n : nat) : M (list Z) :=
  match n with
  | O => mret []
  | S n' => x ← GetLength f; xs ← lengths f n'; mret (x :: xs)
  end.

Fixpoint reads (f : FileAsset) (ps : list nat) : M (list (list byte * option error)) :=
  match ps with
  | [] => mret []
  | p :: ps' => x ← Read f p; xs ← reads f ps'; mret (x :: xs)
  end.

(** [w'] has all the file objects of [w], as they are in [w], and the same
    inodes, readers and environment: it may have more file objects. *)
Definition extends (w w' : World) : Prop :=
  same_env w w' ∧ w_inodes w' = w_inodes w ∧ w_readers w' = w_readers w ∧
  ∀ fd h, w_files w !! fd = Some h -> w_files w' !! fd = Some h.

(** The file object an asset reads from is one of the objects of the
    state, as it is after [NewFileAsset]. *)
Definition reader_allocated (w : World) (f : FileAsset) : Prop :=
  ∀ fd, reader (FileAsset_base f) = Some (FileReader (Some fd)) ->
        fd ∈ dom (w_files w).

(** The file object [os.Open] returns for a node. *)
Definition opened (name : string) (n : Node) : File :=
  {| f_name := name; f_ino := os.node_ino n; f_off := 0;
     f_write := false; f_open := true |}.

Definition closed (h : File) : File :=
  {| f_name := f_name h; f_ino := f_ino h; f_off := f_off h;
     f_write := f_write h; f_open := false |}.

(** The asset [NewFileAsset] returns for [config.yaml] on [config_world],
    and the state it leaves. *)
Definition disk_config_asset : FileAsset :=
  {| FileAsset_base :=
    {| data := []; reader := Some (FileReader (Some 0%nat)); Length := 0;
       AssetName := "config.yaml"; TargetDir := "/tmp/out";
       TargetName := "config.yaml"; Permissions := "0644" |} |}.

Definition opened_config_world : World :=
  snd (NewFileAsset "config.yaml" "/tmp/out" "config.yaml" "0644" config_world).

(** ** Vocabulary of the further properties *)

(** The permission bits of an inode. *)
Definition mode_of (w : World) (ino : nat) : Z :=
  match w_inodes w !! ino with Some i => i_mode i | None => 0 end.

(** [h'] is the file object [h] later on: the same name, inode, access and
    state, its offset not before that of [h]. *)
Definition same_object (h h' : File) : Prop :=
  f_name h' = f_name h ∧ f_ino h' = f_ino h ∧ f_write h' = f_write h ∧
  f_open h' = f_open h ∧ (f_off h ≤ f_off h')%nat.

(** Every file object of [w] is still there in [w'], as it was but for its
    offset. *)
Definition objects_kept (w w' : World) : Prop :=
  ∀ fd h, w_files w !! fd = Some h ->
          ∃ h', w_files w' !! fd = Some h' ∧ same_object h h'.

(** A memory asset whose reader was never set. *)
Definition unset_memory_asset : Asset :=
  OfMemory {| MemoryAsset_base :=
    {| data := bytes_of "key: value"; reader := None; Length := 10;
       AssetName := "config.yaml"; TargetDir := "/tmp/out";
       TargetName := "config.yaml"; Permissions := "0644" |} |}.

(** The same for a disk asset, as a literal of the type allows. *)
Definition unset_disk_asset : Asset :=
  OfFile {| FileAsset_base :=
    {| data := []; reader := None; Length := 0;
       AssetName := "config.yaml"; TargetDir := "/tmp/out";
       TargetName := "config.yaml"; Permissions := "0644" |} |}.

(** What the length query of a disk asset named [name] answers in a
    state: zero when the open or the stat fails, the size otherwise. *)
Definition reported_length (w : World) (name : string) : Z :=
  match w_fault w (OpOpen name) with
  | Some _ => 0
  | None =>
      if decide (name = "") then 0
      else match os.node_at w (os.resolve w name) with
           | None => 0
           | Some node =>
               match w_fault w (OpFstat (fresh (dom (w_files w)))) with
               | Some _ => 0
               | None => os.Size (os.info_of w node)
               end
           end
  end.

(** ** Vocabulary of the conversion error and of the copy onto itself *)

(** The string starts with a minus sign. *)
Definition starts_with_minus (s : string) : bool :=
  match s with
  | String c _ => Ascii.eqb c "-"
  | EmptyString => false
  end.

(** A string of digits too long for an int, followed by a letter. *)
Definition overflowing_perm_asset : Asset :=
  OfMemory {| MemoryAsset_base :=
    {| data := bytes_of "key: value"; reader := Some (BytesReader 0); Length := 10;
       AssetName := "config.yaml"; TargetDir := "/tmp/out";
       TargetName := "config.yaml"; Permissions := "99999999999999999999x" |} |}.

(** The disk asset that [NewFileAsset] returns for the file
    [/tmp/out/config.yaml], to be copied onto that same file, and the state
    after its construction in which the existence check is denied. *)
Definition self_copy_asset : Asset :=
  OfFile {| FileAsset_base :=
    {| data := []; reader := Some (FileReader (Some 0%nat)); Length := 0;
       AssetName := "/tmp/out/config.yaml"; TargetDir := "/tmp/out";
       TargetName := "config.yaml"; Permissions := "0644" |} |}.

Definition self_copy_world : World :=
  deny_stat "/tmp/out/config.yaml"
    (snd (NewFileAsset "/tmp/out/config.yaml" "/tmp/out" "config.yaml" "0644"
            (add_file "/tmp/out/config.yaml" "key: value" 420 empty_world))).

(** The nine permission bits of a mode. *)
Definition perm_bits (mode : Z) : Z := Z.land mode os.ModePerm.

(** ** Reasoning about computations *)

Example Atoi_0644 : strconv.Atoi "0644" = (644, None).
Proof. reflexivity. Qed.
Example Atoi_abc : strconv.Atoi "abc" = (0, Some (ErrNum "Atoi" "abc" ErrSyntax)).
Proof. reflexivity. Qed.
Example Atoi_big : strconv.Atoi "9223372036854775808" =
  (9223372036854775807, Some (ErrNum "Atoi" "9223372036854775808" ErrRange)).
Proof. vm_compute. reflexivity. Qed.
Example Atoi_neg : strconv.Atoi "-12" = (-12, None).
Proof. reflexivity. Qed.
Example Join1 : filepath.Join "/tmp/out" "config.yaml" = "/tmp/out/config.yaml".
Proof. reflexivity. Qed.
Example Join2 : filepath.Join "/tmp/out/" "../x//y/." = "/tmp/x/y".
Proof. reflexivity. Qed.
Example Join3 : filepath.Join "a" "../../b" = "../b".
Proof. reflexivity. Qed.
Example Sprintf1 : Sprintf "error converting permissions %s to integer" [ArgInt 0]
  = "error converting permissions %!s(int=0) to integer".
Proof. reflexivity. Qed.


Lemma bind_run {A B} (m : M A) (k : A -> M B) (w : World) :
  (m ≫= k) w =
  match m w with
  | (Ok a, w') => k a w'
  | (Panic msg, w') => (Panic msg, w')
  | (Timeout, w') => (Timeout, w')
  end.
Proof. reflexivity. Qed.

Lemma ret_run {A} (a : A) (w : World) : (mret a : M A) w = (Ok a, w).
Proof. reflexivity. Qed.


Lemma same_env_refl w : same_env w w.
Proof. by repeat split. Qed.

Lemma same_env_trans w1 w2 w3 : same_env w1 w2 -> same_env w2 w3 -> same_env w1 w3.
Proof. intros (?&?&?&?) (?&?&?&?). repeat split; congruence. Qed.

Lemma resolve_same_env w w1 name :
  same_env w w1 -> os.resolve w1 name = os.resolve w name.
Proof. intros (Hc&_). unfold os.resolve. by rewrite Hc. Qed.

Lemma node_at_names w w1 p :
  w_names w1 = w_names w -> os.node_at w1 p = os.node_at w p.
Proof. intros H. unfold os.node_at. by rewrite H. Qed.

Lemma data_of_inodes w w1 ino :
  w_inodes w1 = w_inodes w -> os.data_of w1 ino = os.data_of w ino.
Proof. intros H. unfold os.data_of. by rewrite H. Qed.

Lemma open_file_files w w1 fd :
  w_files w1 = w_files w -> os.open_file w1 fd = os.open_file w fd.
Proof. intros H. unfold os.open_file. by rewrite H. Qed.

Ltac run :=
  unfold syscall, get, modify, panic, timeout, os.new_file, os.set_file;
  repeat (rewrite ?bind_run, ?ret_run; cbn beta iota).

(** *** What each call of package os does to the state *)

Lemma MkdirAll_spec name perm w r w1 :
  os.MkdirAll name perm w = (r, w1) ->
  ∃ e, r = Ok e ∧ same_env w w1 ∧
    w_trace w1 = w_trace w ++ [OpMkdirAll name] ∧
    w_inodes w1 = w_inodes w ∧ w_files w1 = w_files w ∧
    w_readers w1 = w_readers w ∧
    (e = None -> ∀ p i, os.node_at w p = Some (NFile i) ->
                        os.node_at w1 p = Some (NFile i)).
Proof.
  unfold os.MkdirAll. run.
  destruct (w_fault w (OpMkdirAll name)) as [e|] eqn:Hf.
  { intros [= <- <-]. eexists. repeat split; done. }
  destruct (decide (name = "")) as [->|Hn].
  { intros [= <- <-]. eexists. repeat split; done. }
  run.
  destruct (existsb _ _) eqn:Hex.
  { intros [= <- <-]. eexists. repeat split; done. }
  intros [= <- <-]. eexists. repeat split; try done.
  intros _ p i Hp.
  assert (Hnf : ∀ q, q ∈ os.ancestors (os.resolve (log (OpMkdirAll name) w) name) ->
                     q ≠ p).
  { intros q Hq ->.
    assert (existsb (os.is_file (log (OpMkdirAll name) w))
              (os.ancestors (os.resolve (log (OpMkdirAll name) w) name)) = true)
      as Hc; [|congruence].
    apply existsb_exists. exists p. split; [by apply list_elem_of_In|].
    unfold os.is_file. change (os.node_at (log (OpMkdirAll name) w) p)
      with (os.node_at w p). by rewrite Hp. }
  revert Hnf. generalize (os.ancestors (os.resolve (log (OpMkdirAll name) w) name)).
  intros l Hl. destruct p as [|c p]; [done|]. cbn in Hp |- *.
  induction l as [|q l IH]; [done|]. cbn.
  rewrite lookup_insert_ne; [|apply Hl; left].
  apply IH. intros q' Hq'. apply Hl. by right.
Qed.

Lemma Stat_spec name w r w1 :
  os.Stat name w = (r, w1) ->
  w1 = log (OpStat name) w ∧
  ∃ fi err, r = Ok (fi, err) ∧
    (err = None ->
     w_fault w (OpStat name) = None ∧ is_Some (os.node_at w (os.resolve w name))) ∧
    (∀ n, w_fault w (OpStat name) = None -> name ≠ "" ->
          os.node_at w (os.resolve w name) = Some n -> err = None).
Proof.
  unfold os.Stat. run.
  destruct (w_fault w (OpStat name)) as [e|] eqn:Hf.
  { intros [= <- <-]. split; [done|]. do 2 eexists. by repeat split. }
  destruct (decide (name = "")) as [->|Hn].
  { intros [= <- <-]. split; [done|]. do 2 eexists. by repeat split. }
  run.
  change (os.node_at (log (OpStat name) w) (os.resolve (log (OpStat name) w) name))
    with (os.node_at w (os.resolve w name)).
  destruct (os.node_at w (os.resolve w name)) as [n|] eqn:Hnode.
  - intros [= <- <-]. split; [done|]. do 2 eexists. repeat split; eauto.
  - intros [= <- <-]. split; [done|]. do 2 eexists. by repeat split.
Qed.

Lemma Remove_spec name w r w1 :
  os.Remove name w = (r, w1) ->
  ∃ e, r = Ok e ∧ same_env w w1 ∧
    w_trace w1 = w_trace w ++ [OpRemove name] ∧
    w_inodes w1 = w_inodes w ∧ w_files w1 = w_files w ∧
    w_readers w1 = w_readers w ∧
    (e = None -> w_names w1 = delete (os.resolve w name) (w_names w) ∧
                 os.resolve w name ≠ []).
Proof.
  unfold os.Remove. run.
  destruct (w_fault w (OpRemove name)) as [e|] eqn:Hf.
  { intros [= <- <-]. eexists. by repeat split. }
  destruct (decide (name = "")) as [->|Hn].
  { intros [= <- <-]. eexists. by repeat split. }
  run.
  change (os.resolve (log (OpRemove name) w) name) with (os.resolve w name).
  change (os.node_at (log (OpRemove name) w) (os.resolve w name))
    with (os.node_at w (os.resolve w name)).
  destruct (os.node_at w (os.resolve w name)) as [[|ino]|] eqn:Hnode.
  - destruct (decide (os.resolve w name = [])) as [Hp|Hp].
    { intros [= <- <-]. eexists. by repeat split. }
    destruct (os.has_entries _ _).
    { intros [= <- <-]. eexists. by repeat split. }
    run. intros [= <- <-]. eexists. by repeat split.
  - run. intros [= <- <-]. eexists. repeat split; try done.
    intros Hp. rewrite Hp in Hnode. done.
  - intros [= <- <-]. eexists. by repeat split.
Qed.


Lemma Create_spec name w r w1 :
  os.Create name w = (r, w1) ->
  ∃ t err, r = Ok (t, err) ∧ same_env w w1 ∧
    w_trace w1 = w_trace w ++ [OpCreate name] ∧
    w_readers w1 = w_readers w ∧
    (err ≠ None -> w_names w1 = w_names w ∧ w_inodes w1 = w_inodes w ∧
                   w_files w1 = w_files w) ∧
    (err = None -> ∃ ino mode,
       let fd := fresh (dom (w_files w)) in
       let p := os.resolve w name in
       t = Some fd ∧
       w_files w1 = <[fd := created name ino]> (w_files w) ∧
       w_inodes w1 = <[ino := {| i_data := []; i_mode := mode |}]> (w_inodes w) ∧
       os.node_at w1 p = Some (NFile ino) ∧
       (os.node_at w p = None ->
          ino = fresh (os.used_inos w) ∧ w_names w1 = <[p := NFile ino]> (w_names w) ∧
          mode = Z.land (os.syscallMode 438) (Z.lnot (w_umask w))) ∧
       (∀ i, os.node_at w p = Some (NFile i) ->
          ino = i ∧ w_names w1 = w_names w)).
Proof.
  unfold os.Create. run.
  destruct (w_fault w (OpCreate name)) as [e|] eqn:Hf.
  { intros [= <- <-]. do 2 eexists. by repeat split. }
  destruct (decide (name = "")) as [->|Hn].
  { intros [= <- <-]. do 2 eexists. by repeat split. }
  run.
  change (os.resolve (log (OpCreate name) w) name) with (os.resolve w name).
  change (os.node_at (log (OpCreate name) w)) with (os.node_at w).
  destruct (os.node_at w (os.resolve w name)) as [[|ino]|] eqn:Hnode.
  - intros [= <- <-]. do 2 eexists. by repeat split.
  - run. intros [= <- <-]. do 2 eexists. repeat split; try done.
    intros _. exists ino. eexists. cbn. repeat split; try done.
    all: congruence.
  - destruct (os.node_at w (removelast (os.resolve w name))) as [[|i]|] eqn:Hpar.
    + run. intros [= <- <-]. do 2 eexists. repeat split; try done.
      intros _. do 2 eexists. cbn. repeat split; try done.
      destruct (os.resolve w name) as [|c p] eqn:Hp; [done|].
      cbn. by rewrite lookup_insert_eq.
    + intros [= <- <-]. do 2 eexists. by repeat split.
    + intros [= <- <-]. do 2 eexists. by repeat split.
Qed.

(** *** Readers *)



Lemma Reader_Read_spec r n w res w1 :
  n ≠ 0%nat ->
  Reader_Read r n w = (res, w1) ->
  ∃ bs er, res = Ok (bs, er) ∧ same_env w w1 ∧
    w_names w1 = w_names w ∧ w_inodes w1 = w_inodes w ∧
    (∃ ops, w_trace w1 = w_trace w ++ ops ∧ Forall is_io ops) ∧
    (∀ fd, r ≠ FileReader (Some fd) -> w_files w1 !! fd = w_files w !! fd) ∧
    (∀ fd h1, w_files w1 !! fd = Some h1 ->
       ∃ h, w_files w !! fd = Some h ∧ f_ino h1 = f_ino h) ∧
    match er with
    | None => bs ≠ [] ∧ unread w r = bs ++ unread w1 r
    | Some e => bs = [] ∧ (e = ErrEOF -> unread w r = [])
    end.
Proof.
  intros Hn. destruct r as [[fd|]|r]; cbn [Reader_Read].
  - unfold os.File_Read. run.
    destruct (os.open_file w fd) as [h|] eqn:Hopen.
    2:{ intros [= <- <-]. do 2 eexists. repeat split; try done.
        - exists []. by rewrite app_nil_r.
        - eauto. }
    destruct (decide (n = 0%nat)) as [|_]; [done|]. run.
    assert (Hh : w_files w !! fd = Some h ∧ f_open h = true).
    { unfold os.open_file in Hopen. destruct (w_files w !! fd) as [h'|]; [|done].
      destruct (f_open h') eqn:?; [|done]. by simplify_eq. }
    destruct Hh as [Hfd Hop].
    destruct (w_fault w (OpRead fd)) as [e|] eqn:Hf.
    { intros [= <- <-]. do 2 eexists. repeat split; try done.
      - exists [OpRead fd]. split; [done|]. by repeat constructor.
      - eauto. }
    destruct (f_ino h) as [ino|] eqn:Hino.
    2:{ intros [= <- <-]. do 2 eexists. repeat split; try done.
        - exists [OpRead fd]. split; [done|]. by repeat constructor.
        - eauto. }
    change (os.data_of (log (OpRead fd) w) ino) with (os.data_of w ino).
    destruct (take n (drop (f_off h) (os.data_of w ino))) as [|b bs] eqn:Htake.
    { intros [= <- <-]. do 2 eexists. repeat split; try done.
      - exists [OpRead fd]. split; [done|]. by repeat constructor.
      - eauto.
      - intros _. cbn. rewrite Hopen, Hino.
        destruct (drop (f_off h) (os.data_of w ino)); [done|].
        destruct n; [done|]. done. }
    run. intros [= <- <-]. do 2 eexists. split; [done|]. split; [done|].
    split; [done|]. split; [done|]. split.
    { exists [OpRead fd]. split; [done|]. by repeat constructor. }
    split.
    { intros fd' Hne. cbn. rewrite lookup_insert_ne; [done|]. congruence. }
    split.
    { intros fd' h1. cbn. destruct (decide (fd = fd')) as [<-|Hne].
      - rewrite lookup_insert_eq. intros [= <-]. exists h. cbn. by rewrite Hino.
      - rewrite lookup_insert_ne by done. eauto. }
    split; [done|].
    cbn. rewrite Hopen, Hino. unfold os.open_file. cbn.
    rewrite lookup_insert_eq. cbn. rewrite Hop.
    cbn [f_ino f_off].
    change (os.data_of (with_files _ _) ino) with (os.data_of w ino).
    rewrite <- drop_drop.
    set (l := drop (f_off h) (os.data_of w ino)) in *.
    assert (Hlen : length (take n l) = S (length bs)) by by rewrite Htake.
    rewrite length_take in Hlen.
    rewrite <- (take_drop n l) at 1. rewrite Htake. cbn. do 2 f_equal.
    destruct (decide (n ≤ length l)%nat).
    + f_equal. lia.
    + rewrite !drop_ge; [done|lia..].
  - unfold os.File_Read. run. intros [= <- <-]. do 2 eexists.
    repeat split; try done.
    + exists []. by rewrite app_nil_r.
    + eauto.
  - unfold bytes_Reader_Read. run.
    destruct (default [] (w_readers w !! r)) as [|b s] eqn:Hs.
    { intros [= <- <-]. do 2 eexists. repeat split; try done.
      - exists []. by rewrite app_nil_r.
      - eauto. }
    run. intros [= <- <-]. do 2 eexists. repeat split; try done.
    + exists []. by rewrite app_nil_r.
    + eauto.
    + destruct n; done.
    + cbn. rewrite Hs, lookup_insert_eq. cbn. by rewrite take_drop.
Qed.

(** *** Methods of open files *)

Lemma open_file_Some w fd h :
  os.open_file w fd = Some h <-> w_files w !! fd = Some h ∧ f_open h = true.
Proof.
  unfold os.open_file. destruct (w_files w !! fd) as [h'|].
  - destruct (f_open h') eqn:Hop.
    + split; [intros [= <-]; done|]. by intros [[= <-] _].
    + split; [done|]. intros [[= <-] Ho]. congruence.
  - split; [done|]. by intros [? _].
Qed.


Lemma File_Write_spec f bs w res w1 :
  os.File_Write f bs w = (res, w1) ->
  ∃ nw ew, res = Ok (nw, ew) ∧ same_env w w1 ∧
    w_names w1 = w_names w ∧ w_readers w1 = w_readers w ∧
    (∃ ops, w_trace w1 = w_trace w ++ ops ∧ Forall is_io ops) ∧
    (ew ≠ None -> w_inodes w1 = w_inodes w ∧ w_files w1 = w_files w) ∧
    (ew = None -> ∃ fd h ino mode,
       f = Some fd ∧ w_files w !! fd = Some h ∧ f_ino h = Some ino ∧
       nw = Z.of_nat (length bs) ∧
       w_inodes w1 = <[ino := {| i_data := os.write_at (f_off h) bs (os.data_of w ino);
                                 i_mode := mode |}]> (w_inodes w) ∧
       w_files w1 = <[fd := advance h (length bs)]> (w_files w)).
Proof.
  unfold os.File_Write. destruct f as [fd|]; run.
  2:{ intros [= <- <-]. do 2 eexists. repeat split; try done.
      exists []. by rewrite app_nil_r. }
  destruct (os.open_file w fd) as [h|] eqn:Hopen.
  2:{ intros [= <- <-]. do 2 eexists. repeat split; try done.
      exists []. by rewrite app_nil_r. }
  run. apply open_file_Some in Hopen as [Hfd Hop].
  assert (Hio : Forall is_io [OpWrite fd]) by by repeat constructor.
  destruct (w_fault w (OpWrite fd)) as [e|].
  { intros [= <- <-]. do 2 eexists. repeat split; try done. eauto. }
  destruct (f_ino h) as [ino|] eqn:Hino.
  2:{ intros [= <- <-]. do 2 eexists. repeat split; try done. eauto. }
  destruct (f_write h) eqn:Hw.
  2:{ intros [= <- <-]. do 2 eexists. repeat split; try done. eauto. }
  run. intros [= <- <-]. do 2 eexists. repeat split; try done; [eauto|].
  intros _. exists fd, h, ino. eexists. repeat split; try done.
  cbn. unfold advance. by rewrite Hino, Hw, Hop.
Qed.

Lemma File_Chmod_spec f mode w res w1 :
  os.File_Chmod f mode w = (res, w1) ->
  ∃ e, res = Ok e ∧ same_env w w1 ∧
    w_names w1 = w_names w ∧ w_readers w1 = w_readers w ∧
    w_files w1 = w_files w ∧
    (∀ ino, os.data_of w1 ino = os.data_of w ino) ∧
    (∃ ops, w_trace w1 = w_trace w ++ ops ∧
            Forall (λ op, ∃ fd, op = OpChmod fd) ops) ∧
    (e = None -> ∀ fd h ino, f = Some fd -> w_files w !! fd = Some h ->
       f_ino h = Some ino ->
       w_inodes w1 = <[ino := {| i_data := os.data_of w ino;
                                 i_mode := os.syscallMode mode |}]> (w_inodes w)).
Proof.
  unfold os.File_Chmod. destruct f as [fd|]; run.
  2:{ intros [= <- <-]. eexists. repeat split; try done.
      exists []. by rewrite app_nil_r. }
  destruct (os.open_file w fd) as [h|] eqn:Hopen.
  2:{ intros [= <- <-]. eexists. repeat split; try done.
      exists []. by rewrite app_nil_r. }
  run. apply open_file_Some in Hopen as [Hfd Hop].
  assert (Hio : Forall (λ op, ∃ fd, op = OpChmod fd) [OpChmod fd]).
  { repeat constructor. eauto. }
  destruct (w_fault w (OpChmod fd)) as [e|].
  { intros [= <- <-]. eexists. repeat split; try done. eauto. }
  destruct (f_ino h) as [ino|] eqn:Hino.
  2:{ intros [= <- <-]. eexists. repeat split; try done; [eauto|].
      intros _ fd' h' ino' [= <-] Hfd' Hino'. simplify_eq. }
  run. intros [= <- <-]. eexists. repeat split; try done.
  - intros i. unfold os.data_of. cbn.
    destruct (decide (ino = i)) as [<-|Hne].
    + rewrite lookup_insert_eq. done.
    + by rewrite lookup_insert_ne.
  - eauto.
  - intros _ fd' h' ino' [= <-] Hfd' Hino'. by simplify_eq.
Qed.

Lemma File_Close_spec f w res w1 :
  os.File_Close f w = (res, w1) ->
  ∃ e, res = Ok e ∧ same_env w w1 ∧
    w_names w1 = w_names w ∧ w_readers w1 = w_readers w ∧
    w_inodes w1 = w_inodes w ∧
    (∃ ops, w_trace w1 = w_trace w ++ ops ∧
            Forall (λ op, ∃ fd, op = OpClose fd) ops) ∧
    (∀ fd, f ≠ Some fd -> w_files w1 !! fd = w_files w !! fd) ∧
    dom (w_files w1) = dom (w_files w).
Proof.
  unfold os.File_Close. destruct f as [fd|]; run.
  2:{ intros [= <- <-]. eexists. repeat split; try done.
      exists []. by rewrite app_nil_r. }
  destruct (os.open_file w fd) as [h|] eqn:Hopen.
  2:{ intros [= <- <-]. eexists. repeat split; try done.
      exists []. by rewrite app_nil_r. }
  run. apply open_file_Some in Hopen as [Hfd Hop].
  intros [= <- <-]. eexists. repeat split; try done.
  - exists [OpClose fd]. split; [done|]. repeat constructor. eauto.
  - intros fd' Hne. cbn. rewrite lookup_insert_ne; [done|congruence].
  - cbn. rewrite dom_insert_L. apply elem_of_dom_2 in Hfd.
    apply subseteq_union_1_L. by apply singleton_subseteq_l.
Qed.

(** *** The loop of io.Copy *)

Lemma write_at_end acc bs : os.write_at (length acc) bs acc = acc ++ bs.
Proof.
  unfold os.write_at. rewrite take_ge by lia. rewrite Nat.sub_diag. cbn.
  rewrite drop_ge by lia. by rewrite app_nil_r.
Qed.

Lemma copy_buf_size_pos : io.copy_buf_size ≠ 0%nat.
Proof. unfold io.copy_buf_size. lia. Qed.

(** Writes to the destination leave the stream of a reader that is apart
    from it as it was. *)
Lemma unread_apart w w2 r fdt new h d :
  apart w r fdt new ->
  w_readers w2 = w_readers w ->
  w_files w2 = <[fdt := h]> (w_files w) ->
  w_inodes w2 = <[new := d]> (w_inodes w) ->
  unread w2 r = unread w r ∧ apart w2 r fdt new.
Proof.
  intros Hap Hr Hf Hi. destruct r as [[fdr|]|r]; cbn in *; [|done|by rewrite Hr].
  destruct Hap as [Hne Hino]. split.
  - unfold os.open_file. rewrite Hf, lookup_insert_ne by done.
    destruct (w_files w !! fdr) as [hr|] eqn:Hfdr; [|done].
    destruct (f_open hr); [|done].
    destruct (f_ino hr) as [ino|] eqn:Hi'; [|done].
    unfold os.data_of. rewrite Hi, lookup_insert_ne; [done|].
    intros <-. by eapply Hino.
  - split; [done|]. intros hr. rewrite Hf, lookup_insert_ne by done. apply Hino.
Qed.

(** Copying from a reader that is apart from the destination: one read
    more than the stream has bytes is enough fuel, and a copy that ends
    without an error has appended the whole stream to the destination. *)
Lemma copy_loop_content fuel : ∀ w written r fdt name new acc,
  w_files w !! fdt = Some (advance (created name new) (length acc)) ->
  os.data_of w new = acc ->
  apart w r fdt new ->
  ∃ res w', io.copy_loop fuel (Some fdt) (Reader_Read r) written w = (res, w') ∧
    ((length (unread w r) < fuel)%nat -> res ≠ Timeout) ∧
    (∀ n, res = Ok (n, None) ->
       os.data_of w' new = acc ++ unread w r ∧ w_names w' = w_names w ∧
       same_env w w').
Proof.
  induction fuel as [|fuel IH]; intros w written r fdt name new acc Hfdt Hdata Hap.
  { do 2 eexists. split; [done|]. split; [lia|done]. }
  cbn [io.copy_loop]. run.
  destruct (Reader_Read r io.copy_buf_size w) as [res w1] eqn:Hread.
  apply Reader_Read_spec in Hread
    as (bs & er & -> & Henv1 & Hnames1 & Hino1 & _ & Hfiles1 & Hback & Her);
    [|apply copy_buf_size_pos].
  cbn beta iota.
  assert (Hfdt1 : w_files w1 !! fdt = Some (advance (created name new) (length acc))).
  { rewrite Hfiles1; [done|]. intros ->. destruct Hap as [? _]. done. }
  assert (Hap1 : apart w1 r fdt new).
  { destruct r as [[fdr|]|r]; try done. destruct Hap as [Hne Hi]. split; [done|].
    intros h1 Hh1. destruct (Hback _ _ Hh1) as (h & Hh & ->). by eapply Hi. }
  assert (Hdata1 : os.data_of w1 new = acc).
  { by rewrite (data_of_inodes w w1). }
  destruct er as [e|].
  - destruct Her as [-> Heof]. run.
    destruct e; (do 2 eexists; split; [done|]; split; [done|]); try done.
    intros n _. rewrite Heof by done. rewrite app_nil_r. done.
  - destruct Her as [Hbs Hun]. destruct bs as [|b bs]; [done|]. run.
    destruct (os.File_Write (Some fdt) (b :: bs) w1) as [res w2] eqn:Hwrite.
    apply File_Write_spec in Hwrite
      as (nw & ew & -> & Henv2 & Hnames2 & Hr2 & _ & _ & Hok).
    cbn beta iota. destruct ew as [e|]; run.
    { do 2 eexists. split; [done|]. split; done. }
    destruct Hok as (fd & h & ino & mode & [= <-] & Hh & Hino & -> & Hi2 & Hf2); [done|].
    rewrite Hfdt1 in Hh. injection Hh as <-. cbn in Hino. injection Hino as <-.
    cbn [advance created f_off] in Hi2. rewrite Nat.add_0_l in Hi2.
    rewrite Hdata1, write_at_end in Hi2.
    destruct (decide _) as [_|Hd]; [|done]. run.
    destruct (unread_apart w1 w2 r fdt new _ _ Hap1 Hr2 Hf2 Hi2) as [Hun2 Hap2].
    destruct (IH w2 (written + Z.of_nat (length (b :: bs))) r fdt name new
                (acc ++ b :: bs)) as (res & w' & Hloop & Hfuel & Hres); try done.
    + rewrite Hf2, lookup_insert_eq. unfold advance, created. cbn.
      rewrite length_app. cbn. done.
    + unfold os.data_of. rewrite Hi2, lookup_insert_eq. done.
    + exists res, w'. split; [exact Hloop|]. split.
      * intros Hlt. apply Hfuel. rewrite Hun2.
        rewrite Hun, length_app in Hlt. cbn in Hlt. lia.
      * intros n Hn. destruct (Hres n Hn) as (Hd' & Hn' & He').
        rewrite Hd', Hun2, Hun, <- app_assoc. split; [done|]. split; [congruence|].
        eauto using same_env_trans.
Qed.

(** A reader that shares the file object of the destination just created
    finds it empty. *)
Lemma copy_loop_alias fuel w written fd name ino res w' :
  w_files w !! fd = Some (created name ino) ->
  os.data_of w ino = [] ->
  io.copy_loop fuel (Some fd) (Reader_Read (FileReader (Some fd))) written w = (res, w') ->
  ((0 < fuel)%nat -> res ≠ Timeout) ∧
  (∀ n, res = Ok (n, None) ->
     os.data_of w' ino = [] ∧ w_names w' = w_names w ∧ same_env w w').
Proof.
  intros Hfd Hdata. destruct fuel as [|fuel].
  { intros [= <- <-]. split; [lia|done]. }
  cbn [io.copy_loop Reader_Read]. unfold os.File_Read. run.
  assert (os.open_file w fd = Some (created name ino)) as ->.
  { by apply open_file_Some. }
  destruct (decide _) as [Hz|_]; [by apply copy_buf_size_pos in Hz|]. run.
  destruct (w_fault w (OpRead fd)); run; [intros [= <- <-]; done|].
  cbn [f_ino created f_off].
  change (os.data_of (log (OpRead fd) w) ino) with (os.data_of w ino).
  rewrite Hdata. rewrite drop_nil, take_nil. run.
  intros [= <- <-]. split; [done|]. intros n _. by repeat split.
Qed.

(** Without a reader nothing is copied: the disk asset reports an error,
    the memory asset panics. *)
Lemma copy_loop_no_reader (a : Asset) fuel dst written w res w' :
  reader (asset_base a) = None ->
  io.copy_loop fuel dst (Read a) written w = (res, w') ->
  ((0 < fuel)%nat -> res ≠ Timeout) ∧ ∀ n, res ≠ Ok (n, None).
Proof.
  intros Hr. destruct fuel as [|fuel].
  { intros [= <- <-]. split; [lia|done]. }
  cbn [io.copy_loop]. run.
  destruct a as [[b]|[b]]; cbn in *; unfold FileAsset_Read, MemoryAsset_Read; cbn;
    rewrite Hr; run; intros [= <- <-]; done.
Qed.

Lemma Read_reader (a : Asset) r :
  reader (asset_base a) = Some r -> Read a = Reader_Read r.
Proof.
  intros Hr. destruct a as [[b]|[b]]; cbn in *;
    unfold FileAsset_Read, MemoryAsset_Read; cbn; by rewrite Hr.
Qed.

Lemma unread_same w w1 r :
  w_files w1 = w_files w -> w_readers w1 = w_readers w ->
  (∀ i, os.data_of w1 i = os.data_of w i) ->
  unread w1 r = unread w r.
Proof.
  intros Hf Hr Hd. destruct r as [[fd|]|r]; cbn; [|done|by rewrite Hr].
  rewrite (open_file_files w w1) by done.
  destruct (os.open_file w fd) as [h|]; [|done]. destruct (f_ino h); [|done].
  by rewrite Hd.
Qed.

Lemma Join_empty a b : filepath.Join a b = "" -> a = "".
Proof.
  unfold filepath.Join, filepath.Clean. repeat case_decide; try done.
Qed.

Lemma MkdirAll_empty perm w e w1 :
  os.MkdirAll "" perm w = (Ok e, w1) -> e ≠ None.
Proof.
  unfold os.MkdirAll. run. destruct (w_fault w (OpMkdirAll "")); run.
  - by intros [= <- <-].
  - cbn. by intros [= <- <-].
Qed.


(** ** CopyFileLocal *)


Lemma getters_pure (a : Asset) :
  GetTargetDir a = mret (TargetDir (asset_base a)) ∧
  GetTargetName a = mret (TargetName (asset_base a)) ∧
  GetPermissions a = mret (Permissions (asset_base a)).
Proof. by destruct a. Qed.

Lemma used_inos_file w fd h i :
  w_files w !! fd = Some h -> f_ino h = Some i -> i ∈ os.used_inos w.
Proof.
  intros Hfd Hi. unfold os.used_inos. apply elem_of_union_r.
  apply elem_of_list_to_set. apply list_elem_of_omap. exists (fd, h). split; [|done].
  by apply elem_of_map_to_list.
Qed.

(** The steps up to the creation of the destination: either one of them
    fails and the copy returns its error, or the destination exists, empty,
    behind a new file object, and the copy goes on with [copy_tail]. *)
Lemma CopyFileLocal_prefix (a : Asset) fuel w :
  let dir := TargetDir (asset_base a) in
  let path := target_path a in
  ∃ e1 w1, os.MkdirAll dir os.ModePerm w = (Ok e1, w1) ∧
  match e1 with
  | Some c =>
      CopyFileLocal fuel a w =
        (Ok (Some (step_error "error making dirs for %s" (ArgString dir) c)), w1) ∧
      w_trace w1 = w_trace w ++ [OpMkdirAll dir] ∧
      w_readers w1 = w_readers w ∧ w_files w1 = w_files w
  | None =>
      ∃ fi e2, os.Stat path w1 = (Ok (fi, e2), log (OpStat path) w1) ∧
      ((∃ c w3, e2 = None ∧
          CopyFileLocal fuel a w =
            (Ok (Some (step_error "error removing file %s" (ArgString path) c)), w3) ∧
          w_trace w3 = w_trace w ++ [OpMkdirAll dir; OpStat path; OpRemove path] ∧
          w_readers w3 = w_readers w ∧ w_files w3 = w_files w)
       ∨
       (∃ c w4,
          CopyFileLocal fuel a w =
            (Ok (Some (step_error "error creating file at %s" (ArgString path) c)), w4) ∧
          w_trace w4 = w_trace w ++ prefix_ops a e2 ∧
          w_readers w4 = w_readers w ∧ w_files w4 = w_files w)
       ∨
       (∃ w4 ino mode,
          let fd := fresh (dom (w_files w)) in
          w_trace w4 = w_trace w ++ prefix_ops a e2 ∧
          same_env w w4 ∧
          w_readers w4 = w_readers w ∧
          w_files w4 = <[fd := created path ino]> (w_files w) ∧
          os.node_at w4 (os.resolve w4 path) = Some (NFile ino) ∧
          w_inodes w4 = <[ino := {| i_data := []; i_mode := mode |}]> (w_inodes w) ∧
          (e2 = None -> ∀ fd' h, w_files w !! fd' = Some h -> f_ino h ≠ Some ino) ∧
          CopyFileLocal fuel a w = copy_tail a fuel fd w4))
  end.
Proof.
  intros dir path. unfold CopyFileLocal.
  destruct (getters_pure a) as (-> & -> & ->). fold dir. run.
  destruct (os.MkdirAll dir os.ModePerm w) as [r1 w1] eqn:E1.
  destruct (MkdirAll_spec _ _ _ _ _ E1)
    as (e1 & -> & Henv1 & Ht1 & Hi1 & Hf1 & Hr1 & Hkeep1).
  exists e1, w1. split; [done|].
  destruct e1 as [e1|]; run; [done|].
  change (filepath.Join dir (TargetName (asset_base a))) with path.
  destruct (os.Stat path w1) as [r2 w2] eqn:E2.
  destruct (Stat_spec _ _ _ _ E2) as (-> & fi & e2 & -> & _). run.
  exists fi, e2. split; [done|].
  set (w2 := log (OpStat path) w1) in *.
  assert (∃ e3 w3,
    (match e2 with None => os.Remove path | Some _ => mret None end) w2 = (Ok e3, w3) ∧
    same_env w2 w3 ∧
    w_trace w3 = w_trace w2 ++ match e2 with None => [OpRemove path] | Some _ => [] end ∧
    w_inodes w3 = w_inodes w2 ∧ w_files w3 = w_files w2 ∧ w_readers w3 = w_readers w2 ∧
    (e3 ≠ None -> e2 = None) ∧
    (e2 = None -> e3 = None -> os.node_at w3 (os.resolve w3 path) = None))
    as (e3 & w3 & -> & Henv3 & Ht3 & Hi3 & Hf3 & Hr3 & Hrm & Hgone).
  { destruct e2 as [e2|].
    - exists None, w2. rewrite app_nil_r.
      repeat (split; [first [done | apply same_env_refl]|]). done.
    - destruct (os.Remove path w2) as [r3 w3] eqn:E3.
      apply Remove_spec in E3 as (e3 & -> & Henv3 & ? & ? & ? & ? & Hdel).
      exists e3, w3. repeat (split; [done|]).
      intros _ He3. destruct (Hdel He3) as [Hnames Hne].
      rewrite (resolve_same_env w2 w3) by done.
      destruct (os.resolve w2 path) as [|c p] eqn:Hp; [done|]. cbn.
      rewrite Hnames. apply lookup_delete_eq. }
  assert (Hfw : w_files w3 = w_files w) by by rewrite Hf3; cbn; rewrite Hf1.
  assert (Hrw : w_readers w3 = w_readers w) by by rewrite Hr3; cbn; rewrite Hr1.
  assert (Htw : w_trace w3 = w_trace w ++ ([OpMkdirAll dir] ++ [OpStat path])
            ++ match e2 with None => [OpRemove path] | Some _ => [] end).
  { rewrite Ht3. subst w2. cbn. rewrite Ht1, <- !app_assoc. done. }
  destruct e3 as [e3|]; run.
  { left. exists e3, w3. rewrite Hrm in * by done. done. }
  right.
  destruct (os.Create path w3) as [r4 w4] eqn:E4.
  apply Create_spec in E4 as (t & e4 & -> & Henv4 & Ht4 & Hr4 & Herr4 & Hok4).
  cbn beta iota. destruct e4 as [e4|]; run.
  { destruct Herr4 as (_ & _ & Hf4); [done|].
    left. exists e4, w4. split; [done|]. split.
    { rewrite Ht4, Htw. unfold prefix_ops. fold dir path. by rewrite <- !app_assoc. }
    split; [by rewrite Hr4|]. by rewrite Hf4. }
  destruct Hok4 as (ino & mode & -> & Hf4 & Hi4 & Hnode4 & Hnew & _); [done|].
  assert (Henv : same_env w w4).
  { eapply same_env_trans; [exact Henv1|]. eapply same_env_trans; [|exact Henv4].
    eapply same_env_trans; [|exact Henv3]. by repeat split. }
  right. exists w4, ino, mode. cbn zeta.
  split.
  { rewrite Ht4, Htw. unfold prefix_ops. fold dir path. rewrite <- !app_assoc. done. }
  split; [done|]. split; [by rewrite Hr4|].
  split; [by rewrite Hf4, Hfw|].
  split; [by rewrite (resolve_same_env w3 w4)|].
  split; [by rewrite Hi4, Hi3; cbn; rewrite Hi1|].
  split.
  { intros -> fd' h Hh Hino.
    destruct Hnew as (Hfresh & _); [by apply Hgone|].
    assert (ino ∈ os.used_inos w3) as Hin.
    { eapply used_inos_file; [|exact Hino]. by rewrite Hfw. }
    rewrite Hfresh in Hin. by apply is_fresh in Hin. }
  unfold copy_tail. fold path. rewrite Hfw. done.
Qed.

(** *** The calls of CopyFileLocal, one by one *)

(** [CopyFileLocal] is the four calls that prepare the destination, each
    ending the copy with its wrapped error, and then [copy_tail]. *)
Lemma CopyFileLocal_steps (a : Asset) fuel w :
  let dir := TargetDir (asset_base a) in
  let path := target_path a in
  ∃ e1 w1, os.MkdirAll dir os.ModePerm w = (Ok e1, w1) ∧
  match e1 with
  | Some c =>
      CopyFileLocal fuel a w =
        (Ok (Some (step_error "error making dirs for %s" (ArgString dir) c)), w1)
  | None =>
      ∃ fi e2 e3 w3,
        os.Stat path w1 = (Ok (fi, e2), log (OpStat path) w1) ∧
        remove_if_found path e2 (log (OpStat path) w1) = (Ok e3, w3) ∧
        match e3 with
        | Some c =>
            CopyFileLocal fuel a w =
              (Ok (Some (step_error "error removing file %s" (ArgString path) c)), w3)
        | None =>
            ∃ t e4 w4, os.Create path w3 = (Ok (t, e4), w4) ∧
            match e4 with
            | Some c =>
                CopyFileLocal fuel a w =
                  (Ok (Some (step_error "error creating file at %s" (ArgString path) c)),
                   w4)
            | None =>
                t = Some (fresh (dom (w_files w3))) ∧
                CopyFileLocal fuel a w = copy_tail a fuel (fresh (dom (w_files w3))) w4
            end
        end
  end.
Proof.
  intros dir path. unfold CopyFileLocal.
  destruct (getters_pure a) as (-> & -> & ->). fold dir. run.
  destruct (os.MkdirAll dir os.ModePerm w) as [r1 w1] eqn:E1.
  destruct (MkdirAll_spec _ _ _ _ _ E1) as (e1 & -> & _).
  exists e1, w1. split; [done|].
  destruct e1 as [e1|]; run; [done|].
  change (filepath.Join dir (TargetName (asset_base a))) with path.
  destruct (os.Stat path w1) as [r2 w2] eqn:E2.
  destruct (Stat_spec _ _ _ _ E2) as (-> & fi & e2 & -> & _). run.
  change (match e2 with None => os.Remove path | Some _ => mret None end)
    with (remove_if_found path e2).
  destruct (remove_if_found path e2 (log (OpStat path) w1)) as [r3 w3] eqn:E3.
  assert (∃ e3, r3 = Ok e3) as [e3 ->].
  { revert E3. unfold remove_if_found. destruct e2.
    - intros [= <- <-]. eauto.
    - intros E3. apply Remove_spec in E3 as (e3 & -> & _). eauto. }
  exists fi, e2, e3, w3. split; [done|]. split; [done|].
  destruct e3 as [e3|]; run; [done|].
  destruct (os.Create path w3) as [r4 w4] eqn:E4.
  destruct (Create_spec _ _ _ _ E4) as (t & e4 & -> & _ & _ & _ & _ & Hok).
  exists t, e4, w4. split; [done|]. cbn beta iota.
  destruct e4 as [e4|]; run; [done|].
  destruct Hok as (ino & mode & -> & _); [done|]. split; [done|].
  unfold copy_tail. fold path. done.
Qed.

(** The state when none of the four calls fails: the destination exists,
    empty, behind a new file object, which only the copy holds, and the
    copy goes on with [copy_tail] from there. *)
Lemma prepared_destination (a : Asset) w w1 fi e2 w2 w3 t w4 :
  let dir := TargetDir (asset_base a) in
  let path := target_path a in
  os.MkdirAll dir os.ModePerm w = (Ok None, w1) ->
  os.Stat path w1 = (Ok (fi, e2), w2) ->
  remove_if_found path e2 w2 = (Ok None, w3) ->
  os.Create path w3 = (Ok (t, None), w4) ->
  let fd := fresh (dom (w_files w)) in
  t = Some fd ∧
  (∀ fuel, CopyFileLocal fuel a w = copy_tail a fuel fd w4) ∧
  w_trace w4 = w_trace w ++ prefix_ops a e2 ∧
  same_env w w4 ∧ w_readers w4 = w_readers w ∧
  ∃ ino mode,
    w_files w4 = <[fd := created path ino]> (w_files w) ∧
    os.node_at w4 (os.resolve w4 path) = Some (NFile ino) ∧
    w_inodes w4 = <[ino := {| i_data := []; i_mode := mode |}]> (w_inodes w).
Proof.
  intros dir path Hmk Hst Hrm Hcr fd.
  destruct (MkdirAll_spec _ _ _ _ _ Hmk) as (? & [= <-] & Henv1 & Ht1 & Hi1 & Hf1 & Hr1 & _).
  destruct (Stat_spec _ _ _ _ Hst) as (-> & _).
  assert (same_env (log (OpStat path) w1) w3 ∧
          w_trace w3 = w_trace w1 ++ [OpStat path]
            ++ match e2 with None => [OpRemove path] | Some _ => [] end ∧
          w_inodes w3 = w_inodes w1 ∧ w_files w3 = w_files w1 ∧
          w_readers w3 = w_readers w1) as (Henv3 & Ht3 & Hi3 & Hf3 & Hr3).
  { revert Hrm. unfold remove_if_found. destruct e2.
    - intros [= <-]. split; [apply same_env_refl|done].
    - intros Hrm. apply Remove_spec in Hrm as (? & _ & ? & Ht & ? & ? & ? & _).
      split; [done|]. split; [|done]. rewrite Ht. cbn. by rewrite <- !app_assoc. }
  destruct (Create_spec _ _ _ _ Hcr) as (? & ? & [= <- <-] & Henv4 & Ht4 & Hr4 & _ & Hok).
  destruct Hok as (ino & mode & -> & Hf4 & Hi4 & Hnode & _); [done|].
  assert (Hfw : w_files w3 = w_files w) by congruence.
  split; [by rewrite Hfw|].
  split.
  { intros fuel. destruct (CopyFileLocal_steps a fuel w) as (e1 & w1' & Hmk' & H).
    fold dir path in Hmk', H. rewrite Hmk in Hmk'. injection Hmk' as <- <-.
    destruct H as (fi' & e2' & e3 & w3' & Hst' & Hrm' & H).
    rewrite Hst in Hst'. injection Hst' as <- <-.
    rewrite Hrm in Hrm'. injection Hrm' as <- <-.
    destruct H as (t' & e4 & w4' & Hcr' & H).
    rewrite Hcr in Hcr'. injection Hcr' as <- <- <-.
    destruct H as [_ ->]. by rewrite Hfw. }
  split.
  { rewrite Ht4, Ht3, Ht1. unfold prefix_ops. fold dir path.
    rewrite <- !app_assoc. done. }
  assert (Henv : same_env w w4).
  { eapply same_env_trans; [exact Henv1|]. eapply same_env_trans; [|exact Henv4].
    eapply same_env_trans; [|exact Henv3]. by repeat split. }
  split; [done|]. split; [congruence|].
  exists ino, mode. split; [by rewrite Hf4, Hfw|].
  split; [by rewrite (resolve_same_env w3 w4)|].
  rewrite Hi4, Hi3. by rewrite Hi1.
Qed.

(** *** The calls of the steps after the creation *)

Lemma asset_Read_trace (a : Asset) n w res w1 :
  n ≠ 0%nat ->
  Read a n w = (res, w1) ->
  ∃ ops, w_trace w1 = w_trace w ++ ops ∧ Forall is_io ops.
Proof.
  intros Hn. destruct a as [[b]|[b]]; cbn; unfold FileAsset_Read, MemoryAsset_Read; cbn.
  - destruct (reader b) as [r|].
    + intros H. apply Reader_Read_spec in H as (?&?&?&?&?&?&?&?); done.
    + intros [= <- <-]. exists []. by rewrite app_nil_r.
  - destruct (reader b) as [r|].
    + intros H. apply Reader_Read_spec in H as (?&?&?&?&?&?&?&?); done.
    + intros [= <- <-]. exists []. by rewrite app_nil_r.
Qed.

Lemma copy_loop_trace (a : Asset) fuel : ∀ dst written w res w',
  io.copy_loop fuel dst (Read a) written w = (res, w') ->
  ∃ ops, w_trace w' = w_trace w ++ ops ∧ Forall is_io ops.
Proof.
  induction fuel as [|fuel IH]; intros dst written w res w'.
  { intros [= <- <-]. exists []. by rewrite app_nil_r. }
  cbn [io.copy_loop]. run.
  destruct (Read a io.copy_buf_size w) as [r1 w1] eqn:Hread.
  apply asset_Read_trace in Hread as (ops1 & Ht1 & Hops1); [|apply copy_buf_size_pos].
  destruct r1 as [[buf er]| |]; [|intros [= <- <-]; eauto..].
  cbn beta iota.
  assert (Hjoin : ∀ w2 ops2, w_trace w2 = w_trace w1 ++ ops2 -> Forall is_io ops2 ->
            ∃ ops, w_trace w2 = w_trace w ++ ops ∧ Forall is_io ops).
  { intros w2 ops2 -> H2. exists (ops1 ++ ops2). rewrite Ht1, app_assoc.
    split; [done|]. by apply Forall_app_2. }
  destruct buf as [|b buf]; run.
  - destruct er as [e|].
    + destruct e; intros [= <- <-]; eauto.
    + intros H. apply IH in H as (ops2 & ? & ?). eauto.
  - destruct (os.File_Write dst (b :: buf) w1) as [r2 w2] eqn:Hwrite.
    apply File_Write_spec in Hwrite as (nw & ew & -> & _ & _ & _ & (ops2 & Ht2 & Hops2) & _).
    cbn beta iota.
    assert (Hjoin2 : ∀ w3 ops3, w_trace w3 = w_trace w2 ++ ops3 -> Forall is_io ops3 ->
            ∃ ops, w_trace w3 = w_trace w ++ ops ∧ Forall is_io ops).
    { intros w3 ops3 H3 Hops3. apply (Hjoin w3 (ops2 ++ ops3)).
      - by rewrite H3, Ht2, app_assoc.
      - by apply Forall_app_2. }
    assert (Hnil : ∃ ops, w_trace w2 = w_trace w ++ ops ∧ Forall is_io ops).
    { apply (Hjoin2 w2 []); [by rewrite app_nil_r|constructor]. }
    destruct ew as [e|]; run; [intros [= <- <-]; done|].
    destruct (decide _); run.
    + destruct er as [e'|].
      * destruct e'; intros [= <- <-]; done.
      * intros H. apply IH in H as (ops3 & ? & ?). eauto.
    + intros [= <- <-]; done.
Qed.

Lemma is_io_file_op op : is_io op -> is_file_op op.
Proof. by destruct op. Qed.

Lemma copy_tail_trace (a : Asset) fuel fd w res w' :
  copy_tail a fuel fd w = (res, w') ->
  ∃ ops, w_trace w' = w_trace w ++ ops ∧ Forall is_file_op ops.
Proof.
  unfold copy_tail.
  destruct (strconv.Atoi (Permissions (asset_base a))) as [perms [e|]]; run.
  { intros [= <- <-]. exists []. by rewrite app_nil_r. }
  destruct (os.File_Chmod _ _ w) as [r1 w1] eqn:E1.
  apply File_Chmod_spec in E1 as (e1 & -> & _ & _ & _ & _ & _ & (ops1 & Ht1 & Hops1) & _).
  assert (H1 : Forall is_file_op ops1).
  { eapply Forall_impl; [exact Hops1|]. by intros op [? ->]. }
  destruct e1 as [e1|]; run; [intros [= <- <-]; eauto|].
  unfold io.Copy.
  destruct (io.copy_loop _ _ _ _ w1) as [r2 w2] eqn:E2.
  apply copy_loop_trace in E2 as (ops2 & Ht2 & Hops2).
  assert (H2 : Forall is_file_op ops2).
  { eapply Forall_impl; [exact Hops2|]. apply is_io_file_op. }
  assert (H12 : w_trace w2 = w_trace w ++ (ops1 ++ ops2)) by by rewrite Ht2, Ht1, app_assoc.
  destruct r2 as [[n e2]| |];
    [|intros [= <- <-]; eexists; split; [exact H12|by apply Forall_app_2]..].
  cbn beta iota.
  destruct e2 as [e2|]; run.
  { intros [= <- <-]; eexists; split; [exact H12|by apply Forall_app_2]. }
  intros E3. apply File_Close_spec in E3 as (e3 & -> & _ & _ & _ & _ & (ops3 & Ht3 & Hops3) & _).
  exists (ops1 ++ ops2 ++ ops3). split.
  - by rewrite Ht3, H12, <- !app_assoc.
  - repeat apply Forall_app_2; try done.
    eapply Forall_impl; [exact Hops3|]. by intros op [? ->].
Qed.

(** ** Properties of CopyFileLocal *)





(** C3, amended.  A regular file already is at the destination and the
    environment does not fail the existence check, so that the check sees
    it.  Then the copy ends when given one read more than the
    asset has bytes, and when it ends without an error: the old file was
    removed before the new one was created ([Remove] then [Create] in the
    calls made), and the file now at the destination holds exactly the byte
    stream of the asset. *)
Theorem CopyFileLocal_overwrites (a : Asset) fuel w old :
  let dir := TargetDir (asset_base a) in
  let path := target_path a in
  os.node_at w (os.resolve w path) = Some (NFile old) ->
  w_fault w (OpStat path) = None ->
  ∃ res w',
    CopyFileLocal fuel a w = (res, w') ∧
    ((length (stream w a) < fuel)%nat -> res ≠ Timeout) ∧
    (res = Ok None ->
     ∃ rest new,
       w_trace w' = w_trace w
         ++ [OpMkdirAll dir; OpStat path; OpRemove path; OpCreate path] ++ rest ∧
       Forall is_file_op rest ∧
       os.node_at w' (os.resolve w' path) = Some (NFile new) ∧
       os.data_of w' new = stream w a).
Proof.
  intros dir path Hold Hfault.
  destruct (CopyFileLocal_prefix a fuel w) as (e1 & w1 & Hmk & Hcases).
  fold dir path in Hmk, Hcases.
  destruct e1 as [c|].
  { destruct Hcases as (-> & _). do 2 eexists. split; [done|]. split; done. }
  destruct (MkdirAll_spec _ _ _ _ _ Hmk) as (? & [= <-] & Henv1 & _ & _ & _ & _ & Hkeep).
  destruct Hcases as (fi & e2 & Hstat & Hcases).
  assert (e2 = None) as ->.
  { destruct (Stat_spec _ _ _ _ Hstat) as (_ & ? & ? & [= <- <-] & _ & Hsome).
    eapply Hsome.
    - destruct Henv1 as (_ & _ & _ & ->). done.
    - intros Hp. apply Join_empty in Hp. fold dir in Hp. rewrite Hp in Hmk.
      by apply MkdirAll_empty in Hmk.
    - rewrite (resolve_same_env w w1) by done. by apply Hkeep. }
  destruct Hcases as [Hrm | [Hcr | Hok]].
  { destruct Hrm as (c & w3 & _ & -> & _). do 2 eexists. split; [done|]. split; done. }
  { destruct Hcr as (c & w4 & -> & _). do 2 eexists. split; [done|]. split; done. }
  destruct Hok as (w4 & ino & mode & Ht4 & Henv4 & Hr4 & Hf4 & Hnode4 & Hi4 & Hfresh & ->).
  set (fd := fresh (dom (w_files w))) in *.
  specialize (Hfresh eq_refl).
  assert (Hfdw : w_files w !! fd = None).
  { apply not_elem_of_dom. apply is_fresh. }
  destruct (copy_tail a fuel fd w4) as [res w'] eqn:Htail.
  exists res, w'. split; [done|].
  destruct (copy_tail_trace _ _ _ _ _ _ Htail) as (rest & Ht' & Hrest).
  revert Htail. unfold copy_tail.
  destruct (strconv.Atoi (Permissions (asset_base a))) as [perms [e|]]; run.
  { intros [= <- <-]. split; done. }
  destruct (os.File_Chmod _ _ w4) as [r5 w5] eqn:E5.
  apply File_Chmod_spec in E5 as (e5 & -> & Henv5 & Hn5 & Hr5 & Hf5 & Hd5 & _ & _).
  destruct e5 as [e5|]; run.
  { intros [= <- <-]. split; done. }
  assert (Hdata4 : os.data_of w4 ino = []).
  { unfold os.data_of. by rewrite Hi4, lookup_insert_eq. }
  assert (Hfd5 : w_files w5 !! fd = Some (created path ino)).
  { by rewrite Hf5, Hf4, lookup_insert_eq. }
  assert (∃ res2 w6,
    io.copy_loop fuel (Some fd) (Read a) 0 w5 = (res2, w6) ∧
    ((length (stream w a) < fuel)%nat -> res2 ≠ Timeout) ∧
    (∀ n, res2 = Ok (n, None) ->
       os.data_of w6 ino = stream w a ∧ w_names w6 = w_names w5 ∧ same_env w5 w6))
    as (res2 & w6 & Hloop & Hfuel & Hres).
  { unfold stream. destruct (reader (asset_base a)) as [r|] eqn:Hreader.
    2:{ destruct (io.copy_loop fuel (Some fd) (Read a) 0 w5) as [res2 w6] eqn:E6.
        destruct (copy_loop_no_reader _ _ _ _ _ _ _ Hreader E6) as [H1 H2].
        exists res2, w6. split; [done|]. split; [done|]. intros n Hn. by destruct (H2 n). }
    rewrite (Read_reader a r Hreader).
    destruct (decide (r = FileReader (Some fd))) as [->|Hne].
    - destruct (io.copy_loop fuel (Some fd) _ 0 w5) as [res2 w6] eqn:E6.
      apply copy_loop_alias with (name := path) (ino := ino) in E6 as [H1 H2];
        [|done|by rewrite Hd5].
      exists res2, w6. split; [done|]. cbn. unfold os.open_file. rewrite Hfdw. cbn.
      split; [done|]. intros n Hn. by destruct (H2 n Hn) as (-> & ? & ?).
    - assert (Hap : apart w r fd ino).
      { destruct r as [[fdr|]|r]; try done. split; [congruence|]. apply Hfresh. }
      destruct (unread_apart w w4 r fd ino _ _ Hap Hr4 Hf4 Hi4) as [Hun4 Hap4].
      assert (Hun5 : unread w5 r = unread w r).
      { rewrite <- Hun4. by apply unread_same. }
      destruct (copy_loop_content fuel w5 0 r fd path ino []) as (res2 & w6 & E6 & H1 & H2).
      + done.
      + by rewrite Hd5.
      + destruct r as [[fdr|]|r]; try done. destruct Hap4 as [? Hh]. split; [done|].
        intros h. rewrite Hf5. apply Hh.
      + exists res2, w6. split; [done|]. rewrite <- Hun5. split; [done|].
        intros n Hn. by destruct (H2 n Hn) as (-> & ? & ?). }
  unfold io.Copy. rewrite Hloop.
  destruct res2 as [[n [e6|]]| |]; run.
  - intros [= <- <-]. split; done.
  - destruct (Hres n eq_refl) as (Hd6 & Hn6 & Henv6).
    intros E7. apply File_Close_spec in E7 as (e7 & -> & Henv7 & Hn7 & _ & Hi7 & _).
    split; [done|]. intros [= ->]. exists rest, ino. split.
    { rewrite Ht', Ht4. unfold prefix_ops. fold dir path. by rewrite <- !app_assoc. }
    split; [done|]. split.
    + assert (same_env w4 w') as Henv.
      { eauto using same_env_trans. }
      rewrite (resolve_same_env w4 w') by done.
      rewrite <- Hnode4. apply node_at_names. congruence.
    + by rewrite (data_of_inodes w6 w').
  - intros [= <- <-]. split; done.
  - intros [= <- <-]. split; [|done]. intros Hlt _. by apply Hfuel.
Qed.

Lemma CopyFileLocal_overwrites_witness :
  ∃ w' rest new,
    CopyFileLocal 2 config_asset stale_world = (Ok None, w') ∧
    w_trace w' =
      [] ++ [OpMkdirAll "/tmp/out"; OpStat "/tmp/out/config.yaml";
             OpRemove "/tmp/out/config.yaml"; OpCreate "/tmp/out/config.yaml"] ++ rest ∧
    os.node_at w' (os.resolve w' "/tmp/out/config.yaml") = Some (NFile new) ∧
    os.data_of w' new = bytes_of "key: value".
Proof.
  destruct (CopyFileLocal_overwrites config_asset 2 stale_world 0)
    as (res & w' & Hrun & _ & Hok).
  - vm_compute. reflexivity.
  - reflexivity.
  - assert (res = Ok None) as Hres.
    { transitivity (fst (CopyFileLocal 2 config_asset stale_world)).
      - by rewrite Hrun.
      - vm_compute. reflexivity. }
    destruct (Hok Hres) as (rest & new & H1 & _ & H3 & H4).
    subst res. exists w', rest, new. repeat split; assumption.
Defined.

(** C3, as the claim states it, fails where the existence check itself
    fails.  A file is at the destination, the check is denied, and the
    asset is the disk asset that reads that very file: the copy makes no
    [Remove], it creates over the old file, which empties it, and ends
    without an error, leaving the destination empty where the asset had
    ten bytes to give. *)
Lemma CopyFileLocal_overwrites_only_when_found :
  os.node_at self_copy_world (os.resolve self_copy_world (target_path self_copy_asset))
    = Some (NFile 0%nat) ∧
  stream self_copy_world self_copy_asset = bytes_of "key: value" ∧
  ∃ w',
    CopyFileLocal 2 self_copy_asset self_copy_world = (Ok None, w') ∧
    w_trace w' = w_trace self_copy_world ++
      [OpMkdirAll "/tmp/out"; OpStat "/tmp/out/config.yaml";
       OpCreate "/tmp/out/config.yaml"; OpChmod 1; OpRead 0; OpClose 1] ∧
    os.node_at w' (os.resolve w' (target_path self_copy_asset)) = Some (NFile 0%nat) ∧
    os.data_of w' 0%nat = [] ∧
    os.data_of w' 0%nat ≠ stream self_copy_world self_copy_asset.
Proof.
  split; [vm_compute; reflexivity|]. split; [vm_compute; reflexivity|].
  eexists. split; [vm_compute; reflexivity|].
  split; [vm_compute; reflexivity|]. split; [vm_compute; reflexivity|].
  split; [vm_compute; reflexivity|]. vm_compute. discriminate.
Qed.

(** C1.  The scenario of the copy with permissions [0644]: the copy
    succeeds and [/tmp/out/config.yaml] holds [key: value], from a disk
    asset as from a memory asset, but its mode is not 0644: the string is
    parsed in base ten, and the mode set is that of the integer 644, whose
    permission bits are 0204. *)
Theorem CopyFileLocal_config_yaml :
  (∃ w', copy_config_from_disk config_world = (Ok None, w') ∧
         file_at w' "/tmp/out/config.yaml" =
           Some {| i_data := bytes_of "key: value"; i_mode := octal 2 0 4 |}) ∧
  (∃ w', CopyFileLocal 2 config_asset (with_buffer "key: value" empty_world)
           = (Ok None, w') ∧
         file_at w' "/tmp/out/config.yaml" =
           Some {| i_data := bytes_of "key: value"; i_mode := octal 2 0 4 |}) ∧
  strconv.Atoi "0644" = (644, None) ∧
  os.syscallMode (os.FileMode 644) = octal 2 0 4 ∧
  octal 2 0 4 ≠ octal 6 4 4.
Proof.
  split; [|split; [|split; [|split]]].
  - eexists. split; [vm_compute; reflexivity|]. vm_compute. reflexivity.
  - eexists. split; [vm_compute; reflexivity|]. vm_compute. reflexivity.
  - reflexivity.
  - reflexivity.
  - discriminate.
Qed.

(** ** Properties of the asset types *)

(** C7.  The length of a memory asset is its [Length] field, whatever its
    buffer and its reader hold, and the four getters return the stored
    fields; none of them changes the state. *)
Theorem getters_are_pure (d : list byte) (r : option Reader) (len : Z)
    (name dir tname perms : string) (w : World) :
  let b := {| data := d; reader := r; Length := len; AssetName := name;
              TargetDir := dir; TargetName := tname; Permissions := perms |} in
  let m := {| MemoryAsset_base := b |} in
  let f := {| FileAsset_base := b |} in
  GetLength m w = (Ok len, w) ∧
  GetAssetName m w = (Ok name, w) ∧ GetTargetDir m w = (Ok dir, w) ∧
  GetTargetName m w = (Ok tname, w) ∧ GetPermissions m w = (Ok perms, w) ∧
  GetAssetName f w = (Ok name, w) ∧ GetTargetDir f w = (Ok dir, w) ∧
  GetTargetName f w = (Ok tname, w) ∧ GetPermissions f w = (Ok perms, w).
Proof. repeat split. Qed.

(** C8.  Reading a memory asset whose reader was never set panics with a
    nil dereference and leaves the state as it was, where the disk asset
    returns its error; with a reader set, the read of a memory asset is the
    read of that reader, which does not panic. *)
Theorem MemoryAsset_Read_nil_reader (m : MemoryAsset) (f : FileAsset) (p : nat) (w : World) :
  (reader (MemoryAsset_base m) = None ->
     Read m p w = (Panic nil_dereference, w)) ∧
  (reader (FileAsset_base f) = None ->
     Read f p w = (Ok ([], Some reader_uninitialized), w)) ∧
  (∀ r, reader (MemoryAsset_base m) = Some r ->
     Read m p w = Reader_Read r p w ∧
     ∃ bs err w', Read m p w = (Ok (bs, err), w')).
Proof.
  cbn. unfold MemoryAsset_Read, FileAsset_Read.
  split; [by intros ->|]. split; [by intros ->|].
  intros r ->. split; [done|].
  destruct (Reader_Read r p w) as [res w'] eqn:E.
  destruct (decide (p = 0%nat)) as [->|Hp].
  - revert E. destruct r as [[fd|]|r]; cbn; unfold os.File_Read, bytes_Reader_Read; run.
    + destruct (os.open_file w fd); cbn; intros [= <- <-]; eauto.
    + intros [= <- <-]; eauto.
    + destruct (default [] (w_readers w !! r)); run; intros [= <- <-]; eauto.
  - apply Reader_Read_spec in E as (bs & er & -> & _); eauto.
Qed.

Lemma MemoryAsset_Read_nil_reader_witness :
  Read {| MemoryAsset_base :=
            {| data := []; reader := None; Length := 0; AssetName := "a";
               TargetDir := "/tmp"; TargetName := "a"; Permissions := "0644" |} |}
       8 empty_world
  = (Panic nil_dereference, empty_world).
Proof.
  refine (proj1 (MemoryAsset_Read_nil_reader _ {| FileAsset_base :=
            {| data := []; reader := None; Length := 0; AssetName := "a";
               TargetDir := "/tmp"; TargetName := "a"; Permissions := "0644" |} |}
            8 empty_world) _).
  reflexivity.
Defined.

(** *** The error of strconv.Atoi *)

Lemma Atoi_error s n e :
  strconv.Atoi s = (n, Some e) ->
  ∃ ne, e = ErrNum "Atoi" s ne ∧
        match ne with
        | ErrSyntax => n = 0
        | ErrRange => n = 2 ^ 63 - 1 ∨ n = - 2 ^ 63
        end.
Proof.
  unfold strconv.Atoi.
  destruct (_ && _).
  - destruct (list_ascii_of_string s) as [|c rest].
    { intros [= <- <-]. by exists ErrSyntax. }
    destruct (if strconv.is_sign c then rest else c :: rest).
    { intros [= <- <-]. by exists ErrSyntax. }
    destruct (strconv.fast_digits _ _); [done|].
    intros [= <- <-]. by exists ErrSyntax.
  - destruct (strconv.ParseInt (list_ascii_of_string s)) as [i64 err] eqn:E.
    destruct err as [ne|]; [|done]. intros [= <- <-]. exists ne. split; [done|].
    revert E. unfold strconv.ParseInt.
    destruct (list_ascii_of_string s) as [|c rest]; [by intros [= <- <-]|].
    destruct (strconv.ParseUint _) as [un [[]|]].
    + by intros [= <- <-].
    + unfold strconv.intSize.
      destruct (_ && _); [intros [= <- <-]; by left|].
      destruct (_ && _); [intros [= <- <-]; by right|]. done.
    + destruct (_ && _); [intros [= <- <-]; by left|].
      destruct (_ && _); [intros [= <- <-]; by right|]. done.
Qed.

Lemma append_nil_r (s : string) : s +:+ "" = s.
Proof.
  induction s as [|c s IH]; [done|].
  change (String c (s +:+ "") = String c s). by rewrite IH.
Qed.

Lemma append_assoc (a b c : string) : (a +:+ b) +:+ c = a +:+ (b +:+ c).
Proof.
  induction a as [|x a IH]; [done|].
  change (String x ((a +:+ b) +:+ c) = String x (a +:+ (b +:+ c))). by rewrite IH.
Qed.

Lemma conversion_message_eq n :
  Sprintf "error converting permissions %s to integer" [ArgInt n] = conversion_message n.
Proof.
  unfold conversion_message.
  change (Sprintf "error converting permissions %s to integer" [ArgInt n])
    with ("error converting permissions %!s(int="
            +:+ ((pretty n +:+ ")") +:+ " to integer")).
  by rewrite append_assoc.
Qed.

(** C6, as the claim states it, fails: a permission string of digits too
    large for an [int] fails to parse with the largest [int] as its value,
    and that value, not zero, is what the message embeds. *)
Lemma conversion_message_not_always_zero :
  ∃ w',
    CopyFileLocal 1 huge_perm_asset (with_buffer "key: value" empty_world) =
      (Ok (Some (ErrWrap
         "error converting permissions %!s(int=9223372036854775807) to integer"
         (ErrNum "Atoi" "9223372036854775808" ErrRange))), w') ∧
    snd (strconv.Atoi (Permissions (asset_base huge_perm_asset))) ≠ None ∧
    fst (strconv.Atoi (Permissions (asset_base huge_perm_asset))) ≠ 0 ∧
    conversion_message 9223372036854775807 ≠ conversion_message 0.
Proof.
  eexists. split; [vm_compute; reflexivity|].
  split; [vm_compute; discriminate|]. split; [vm_compute; discriminate|].
  vm_compute. discriminate.
Qed.

(** The value that comes with the error of [Atoi], by the kind of the
    error and the sign of the string. *)
Lemma Atoi_error_value s n e :
  strconv.Atoi s = (n, Some e) ->
  ∃ ne, e = ErrNum "Atoi" s ne ∧
        n = match ne with
            | ErrSyntax => 0
            | ErrRange => if starts_with_minus s then - 2 ^ 63 else 2 ^ 63 - 1
            end.
Proof.
  unfold strconv.Atoi.
  destruct (_ && _).
  - destruct (list_ascii_of_string s) as [|c rest].
    { intros [= <- <-]. by exists ErrSyntax. }
    destruct (if strconv.is_sign c then rest else c :: rest).
    { intros [= <- <-]. by exists ErrSyntax. }
    destruct (strconv.fast_digits _ _); [done|].
    intros [= <- <-]. by exists ErrSyntax.
  - destruct (strconv.ParseInt (list_ascii_of_string s)) as [i64 err] eqn:E.
    destruct err as [ne|]; [|done]. intros [= <- <-]. exists ne. split; [done|].
    revert E. unfold strconv.ParseInt, starts_with_minus.
    destruct s as [|c rest]; [by intros [= <- <-]|].
    cbn [list_ascii_of_string].
    destruct (strconv.ParseUint _) as [un [[]|]].
    + by intros [= <- <-].
    + unfold strconv.intSize.
      destruct (Ascii.eqb c "-"); cbn [negb andb].
      * destruct (_ <? _); [by intros [= <- <-]|done].
      * destruct (_ <=? _); [by intros [= <- <-]|done].
    + unfold strconv.intSize.
      destruct (Ascii.eqb c "-"); cbn [negb andb].
      * destruct (_ <? _); [by intros [= <- <-]|done].
      * destruct (_ <=? _); [by intros [= <- <-]|done].
Qed.

(** A range error does not need a number: the overflow is reported where
    the digits read so far exceed the range, before the letter is seen. *)
Example Atoi_overflow_before_letter :
  strconv.Atoi "99999999999999999999x" =
    (2 ^ 63 - 1, Some (ErrNum "Atoi" "99999999999999999999x" ErrRange)).
Proof. vm_compute. reflexivity. Qed.

(** C6, amended.  When the permission string fails to parse and the three
    steps before the conversion succeed, the error [CopyFileLocal] returns
    wraps the [NumError] of [Atoi] with a message that embeds the parsed
    [int], shown as [%!s(int=N)], and not the permission string.  N is
    zero when [Atoi] reports a syntax error; when it reports a range error
    N is the smallest [int] for a string that starts with a minus sign and
    the largest [int] otherwise. *)
Theorem CopyFileLocal_conversion_message (a : Asset) fuel w n e :
  strconv.Atoi (Permissions (asset_base a)) = (n, Some e) ->
  let dir := TargetDir (asset_base a) in
  let path := target_path a in
  (∃ ne, e = ErrNum "Atoi" (Permissions (asset_base a)) ne ∧
         n = match ne with
             | ErrSyntax => 0
             | ErrRange =>
                 if starts_with_minus (Permissions (asset_base a))
                 then - 2 ^ 63 else 2 ^ 63 - 1
             end) ∧
  (∀ w1 fi e2 w2 w3 t w4,
     os.MkdirAll dir os.ModePerm w = (Ok None, w1) ->
     os.Stat path w1 = (Ok (fi, e2), w2) ->
     remove_if_found path e2 w2 = (Ok None, w3) ->
     os.Create path w3 = (Ok (t, None), w4) ->
     CopyFileLocal fuel a w = (Ok (Some (ErrWrap (conversion_message n) e)), w4)).
Proof.
  intros Hperm dir path. split; [by apply Atoi_error_value|].
  intros w1 fi e2 w2 w3 t w4 Hmk Hst Hrm Hcr.
  destruct (prepared_destination a w w1 fi e2 w2 w3 t w4 Hmk Hst Hrm Hcr)
    as (_ & Hrun & _).
  rewrite Hrun. unfold copy_tail. rewrite Hperm. run.
  cbn [Wrapf]. by rewrite conversion_message_eq.
Qed.

Lemma CopyFileLocal_conversion_message_witness :
  let w := with_buffer "key: value" empty_world in
  let w1 := snd (os.MkdirAll "/tmp/out" os.ModePerm w) in
  let w2 := snd (os.Stat "/tmp/out/config.yaml" w1) in
  let w4 := snd (os.Create "/tmp/out/config.yaml" w2) in
  CopyFileLocal 1 overflowing_perm_asset w =
    (Ok (Some (ErrWrap
       "error converting permissions %!s(int=9223372036854775807) to integer"
       (ErrNum "Atoi" "99999999999999999999x" ErrRange))), w4).
Proof.
  intros w w1 w2 w4.
  refine (proj2 (CopyFileLocal_conversion_message overflowing_perm_asset 1 w
                   (2 ^ 63 - 1) (ErrNum "Atoi" "99999999999999999999x" ErrRange) _)
            w1 None (Some (ErrPath "stat" "/tmp/out/config.yaml" ENOENT)) w2 w2
            (Some 0%nat) w4 _ _ _ _); vm_compute; reflexivity.
Defined.

(** *** Opening a file and asking its length *)

Lemma Open_spec name w :
  let fd := fresh (dom (w_files w)) in
  let w0 := log (OpOpen name) w in
  (∃ e, os.Open name w = (Ok (None, Some e), w0) ∧
        (w_fault w (OpOpen name) = None -> name ≠ "" ->
         os.node_at w (os.resolve w name) = None))
  ∨
  (∃ n, os.node_at w (os.resolve w name) = Some n ∧
        os.Open name w =
          (Ok (Some fd, None), with_files (<[fd := opened name n]> (w_files w)) w0)).
Proof.
  intros fd w0. unfold os.Open. run. fold w0.
  destruct (w_fault w (OpOpen name)) as [e|]; run; [left; eexists; split; done|].
  destruct (decide (name = "")) as [->|Hn]; run; [left; eexists; split; done|].
  change (os.node_at w0 (os.resolve w0 name)) with (os.node_at w (os.resolve w name)).
  destruct (os.node_at w (os.resolve w name)) as [n|]; run.
  - right. by exists n.
  - left. eexists. split; done.
Qed.

Lemma GetLength_run (f : FileAsset) w :
  let name := AssetName (FileAsset_base f) in
  let fd := fresh (dom (w_files w)) in
  ∃ n w', FileAsset_GetLength f w = (Ok n, w') ∧
    same_env w w' ∧ w_names w' = w_names w ∧
    w_inodes w' = w_inodes w ∧ w_readers w' = w_readers w ∧
    ((∃ e, os.Open name w = (Ok (None, Some e), w') ∧ n = 0 ∧
           w_files w' = w_files w ∧ w_trace w' = w_trace w ++ [OpOpen name])
     ∨
     (∃ node w1, os.node_at w (os.resolve w name) = Some node ∧
        os.Open name w = (Ok (Some fd, None), w1) ∧
        w_files w' = <[fd := closed (opened name node)]> (w_files w) ∧
        w_trace w' = w_trace w ++ [OpOpen name; OpFstat fd; OpClose fd] ∧
        ((∃ e, os.File_Stat (Some fd) w1 =
                 (Ok (None, Some e), log (OpFstat fd) w1) ∧ n = 0)
         ∨
         (os.File_Stat (Some fd) w1 =
            (Ok (Some (os.info_of w node), None), log (OpFstat fd) w1) ∧
          n = os.Size (os.info_of w node))))).
Proof.
  intros name fd. unfold FileAsset_GetLength, defer. fold name. run.
  destruct (Open_spec name w) as [(e & Hopen & _) | (node & Hnode & Hopen)];
    fold fd in Hopen; rewrite Hopen; cbn beta iota.
  { run. cbn. do 2 eexists. split; [done|]. repeat (split; [done|]).
    left. by exists e. }
  set (w1 := with_files _ _) in *.
  assert (Hop1 : ∀ w2, w_files w2 = w_files w1 ->
            os.open_file w2 fd = Some (opened name node)).
  { intros w2 H2. apply open_file_Some. rewrite H2. subst w1. cbn.
    by rewrite lookup_insert_eq. }
  assert (Hins : ∀ h, <[fd := h]> (<[fd := opened name node]> (w_files w))
                      = <[fd := h]> (w_files w)).
  { intros h. apply insert_insert_eq. }
  assert (Hstat : os.File_Stat (Some fd) w1 =
            (Ok match w_fault w (OpFstat fd) with
                | Some e => (None, Some (ErrPath "stat" name e))
                | None => (Some (os.info_of w node), None)
                end, log (OpFstat fd) w1)).
  { unfold os.File_Stat. run. rewrite (Hop1 w1) by done. run.
    change (w_fault w1 (OpFstat fd)) with (w_fault w (OpFstat fd)).
    destruct (w_fault w (OpFstat fd)); run; [done|]. by destruct node. }
  run. rewrite Hstat. cbn beta iota.
  assert (Hclose : ∀ n : Z,
    (let '(r, w') := (mret n : M Z) (log (OpFstat fd) w1) in
     match os.File_Close (Some fd) w' with
     | (Ok _, w'') => (r, w'')
     | (Panic msg, w'') => (Panic msg, w'')
     | (Timeout, w'') => (Timeout, w'')
     end) =
    (Ok n, with_files (<[fd := closed (opened name node)]> (w_files w1))
             (log (OpClose fd) (log (OpFstat fd) w1)))).
  { intros n. run. unfold os.File_Close. run.
    rewrite (Hop1 (log (OpFstat fd) w1)) by done. run. done. }
  destruct (w_fault w (OpFstat fd)) as [e|]; cbn beta iota; rewrite Hclose.
  - do 2 eexists. split; [done|]. cbn. repeat (split; [done|]).
    right. exists node, w1. split; [done|]. split; [done|].
    split; [apply Hins|]. split; [by rewrite <- !app_assoc|]. left. by eexists.
  - do 2 eexists. split; [done|]. cbn. repeat (split; [done|]).
    right. exists node, w1. split; [done|]. split; [done|].
    split; [apply Hins|]. split; [by rewrite <- !app_assoc|]. right. done.
Qed.

(** C5.  The length of a disk asset never fails: it is a number, without
    an error, a panic or a change to the names, the inodes or the readers.
    The asset's path is opened again; when the open fails the length is
    zero; otherwise the new file object is asked its size and then closed,
    and the length is zero when that fails and the size otherwise, which
    for a regular file is the number of its bytes. *)
Theorem FileAsset_GetLength_total (f : FileAsset) (w : World) :
  let name := AssetName (FileAsset_base f) in
  let fd := fresh (dom (w_files w)) in
  ∃ n w', GetLength f w = (Ok n, w') ∧
    w_names w' = w_names w ∧ w_inodes w' = w_inodes w ∧
    ((∃ e, os.Open name w = (Ok (None, Some e), w') ∧ n = 0 ∧
           w_trace w' = w_trace w ++ [OpOpen name])
     ∨
     (∃ node w1, os.node_at w (os.resolve w name) = Some node ∧
        os.Open name w = (Ok (Some fd, None), w1) ∧
        w_trace w' = w_trace w ++ [OpOpen name; OpFstat fd; OpClose fd] ∧
        ((∃ e, os.File_Stat (Some fd) w1 =
                 (Ok (None, Some e), log (OpFstat fd) w1) ∧ n = 0)
         ∨
         (os.File_Stat (Some fd) w1 =
            (Ok (Some (os.info_of w node), None), log (OpFstat fd) w1) ∧
          n = os.Size (os.info_of w node) ∧
          ∀ ino, node = NFile ino -> n = Z.of_nat (length (os.data_of w ino)))))).
Proof.
  intros name fd.
  destruct (GetLength_run f w) as (n & w' & Hrun & _ & Hn & Hi & _ & Hcases).
  exists n, w'. split; [exact Hrun|]. split; [done|]. split; [done|].
  destruct Hcases as [(e & Ho & -> & _ & Ht) | (node & w1 & Hnode & Ho & _ & Ht & Hst)].
  - left. by exists e.
  - right. exists node, w1. repeat (split; [done|]).
    destruct Hst as [(e & Hs & ->) | (Hs & ->)]; [left; by exists e|].
    right. split; [done|]. split; [done|]. by intros ino ->.
Qed.

Lemma Reader_Read_initialized r p w bs :
  fst (Reader_Read r p w) ≠ Ok (bs, Some reader_uninitialized).
Proof.
  destruct r as [[fd|]|r]; cbn; unfold os.File_Read, bytes_Reader_Read; run.
  - destruct (os.open_file w fd) as [h|]; [|done].
    destruct (decide _); [done|]. run.
    destruct (w_fault w (OpRead fd)); [done|].
    destruct (f_ino h); [|done].
    destruct (take _ _); done.
  - done.
  - destruct (default [] (w_readers w !! r)); done.
Qed.

(** C4.  [NewFileAsset] opens the file at once.  When the open fails, no
    asset is returned, only the error of the open wrapped with a message
    that names the asset.  When it succeeds, the asset returned holds the
    new, open file object as its reader and the four strings as its
    metadata, and no read of it, in any state, returns the error of the
    uninitialized reader. *)
Theorem NewFileAsset_opens (assetName targetDir targetName permissions : string)
    (w : World) :
  let fd := fresh (dom (w_files w)) in
  (∃ e w1,
     os.Open assetName w = (Ok (None, Some e), w1) ∧
     NewFileAsset assetName targetDir targetName permissions w =
       (Ok (None, Some (ErrWrap ("Error opening file asset: " +:+ assetName) e)), w1))
  ∨
  (∃ f w1,
     os.Open assetName w = (Ok (Some fd, None), w1) ∧
     NewFileAsset assetName targetDir targetName permissions w =
       (Ok (Some f, None), w1) ∧
     reader (FileAsset_base f) = Some (FileReader (Some fd)) ∧
     is_Some (os.open_file w1 fd) ∧
     reader_allocated w1 f ∧
     AssetName (FileAsset_base f) = assetName ∧
     TargetDir (FileAsset_base f) = targetDir ∧
     TargetName (FileAsset_base f) = targetName ∧
     Permissions (FileAsset_base f) = permissions ∧
     ∀ p w2 bs, fst (Read f p w2) ≠ Ok (bs, Some reader_uninitialized)).
Proof.
  intros fd. unfold NewFileAsset. cbn [AssetName]. run.
  destruct (Open_spec assetName w) as [(e & Hopen & _) | (node & Hnode & Hopen)];
    fold fd in Hopen; rewrite Hopen; cbn beta iota; run.
  - left. exists e. eexists. split; [done|]. cbn [Wrapf].
    change (Sprintf "Error opening file asset: %s" [ArgString assetName])
      with ("Error opening file asset: " +:+ (assetName +:+ "")).
    by rewrite append_nil_r.
  - right. do 2 eexists. split; [done|]. split; [done|]. cbn.
    split; [done|]. split.
    { unfold os.open_file. cbn. rewrite lookup_insert_eq. cbn. eauto. }
    split.
    { intros fd' [= <-]. cbn. rewrite dom_insert_L. apply elem_of_union_l.
      by apply elem_of_singleton. }
    repeat (split; [done|]).
    intros p w2 bs. exact (Reader_Read_initialized (FileReader (Some fd)) p w2 bs).
Qed.

(** *** Reads in a state with more file objects *)

Lemma extends_refl w : extends w w.
Proof. split; [apply same_env_refl|]. by repeat split. Qed.

Lemma extends_trans w1 w2 w3 : extends w1 w2 -> extends w2 w3 -> extends w1 w3.
Proof.
  intros (He1 & Hi1 & Hr1 & Hf1) (He2 & Hi2 & Hr2 & Hf2).
  split; [eauto using same_env_trans|]. split; [congruence|]. split; [congruence|].
  eauto.
Qed.

Lemma extends_log op w w' : extends w w' -> extends (log op w) (log op w').
Proof. intros (He & Hi & Hr & Hf). split; [exact He|]. by repeat split. Qed.

Lemma Read_extends (f : FileAsset) p w w' r w1 :
  extends w w' -> reader_allocated w f ->
  Read f p w = (r, w1) ->
  ∃ w1', Read f p w' = (r, w1') ∧ extends w1 w1' ∧ reader_allocated w1 f.
Proof.
  intros Hext Halloc. pose proof Hext as (Henv & Hi & Hr & Hf).
  cbn. unfold FileAsset_Read. unfold reader_allocated in *.
  destruct (reader (FileAsset_base f)) as [[[fd|]|rd]|] eqn:Hreader; cbn.
  - specialize (Halloc fd eq_refl). apply elem_of_dom in Halloc as [h Hh].
    pose proof (Hf _ _ Hh) as Hh'.
    assert (Hin : ∀ fd', Some (FileReader (Some fd)) = Some (FileReader (Some fd')) ->
                         fd' ∈ dom (w_files w)).
    { intros fd' [= <-]. by apply elem_of_dom. }
    unfold os.File_Read. run. unfold os.open_file, os.name_of. rewrite Hh, Hh'.
    destruct (f_open h); run.
    2:{ intros [= <- <-]. eexists. split; [done|]. split; done. }
    destruct (decide _); run.
    { intros [= <- <-]. eexists. split; [done|]. split; done. }
    destruct Henv as (Hc & Hu & Hd & Hfa). rewrite Hfa.
    pose proof (extends_log (OpRead fd) w w' Hext) as Hextl.
    destruct (w_fault w (OpRead fd)); run.
    { intros [= <- <-]. eexists. split; [done|]. split; done. }
    destruct (f_ino h) as [ino|]; run.
    2:{ intros [= <- <-]. eexists. split; [done|]. split; done. }
    change (os.data_of (log (OpRead fd) w') ino) with (os.data_of w' ino).
    change (os.data_of (log (OpRead fd) w) ino) with (os.data_of w ino).
    rewrite (data_of_inodes w w') by done.
    destruct (take _ _) as [|b bs]; run.
    { intros [= <- <-]. eexists. split; [done|]. split; done. }
    intros [= <- <-]. eexists. split; [done|]. split.
    + split; [by repeat split|]. split; [done|]. split; [done|]. cbn.
      intros fd' h'. destruct (decide (fd = fd')) as [<-|Hne].
      * by rewrite !lookup_insert_eq.
      * rewrite !lookup_insert_ne by done. apply Hf.
    + intros fd' [= <-]. cbn. rewrite dom_insert_L. apply elem_of_union_l.
      by apply elem_of_singleton.
  - unfold os.File_Read. run. intros [= <- <-]. eexists. split; [done|].
    split; done.
  - unfold bytes_Reader_Read. run. rewrite Hr.
    destruct (default [] (w_readers w !! rd)); run.
    + intros [= <- <-]. eexists. split; [done|]. split; done.
    + intros [= <- <-]. eexists. split; [done|]. split; [|done].
      split; [done|]. split; [done|]. cbn. split; done.
  - intros [= <- <-]. eexists. split; [done|]. split; done.
Qed.

Lemma reads_extends (f : FileAsset) ps : ∀ w w',
  extends w w' -> reader_allocated w f ->
  fst (reads f ps w') = fst (reads f ps w).
Proof.
  induction ps as [|p ps IH]; intros w w' Hext Halloc; [done|].
  cbn [reads]. run.
  destruct (Read f p w) as [r w1] eqn:E.
  destruct (Read_extends f p w w' r w1 Hext Halloc E) as (w1' & -> & Hext1 & Halloc1).
  destruct r as [x| |]; [|done..].
  specialize (IH w1 w1' Hext1 Halloc1). run.
  destruct (reads f ps w1) as [r2 w2], (reads f ps w1') as [r2' w2'].
  cbn in IH. subst r2'. by destruct r2.
Qed.

Lemma GetLength_extends (f : FileAsset) w :
  ∃ n w', GetLength f w = (Ok n, w') ∧ extends w w' ∧ w_names w' = w_names w.
Proof.
  destruct (GetLength_run f w) as (n & w' & Hrun & Henv & Hn & Hi & Hr & Hcases).
  exists n, w'. split; [exact Hrun|]. split; [|done].
  split; [done|]. split; [done|]. split; [done|].
  destruct Hcases as [(e & _ & _ & -> & _) | (node & w1 & _ & _ & -> & _)]; [done|].
  intros fd h Hh. rewrite lookup_insert_ne; [done|].
  intros <-. apply elem_of_dom_2 in Hh. by apply is_fresh in Hh.
Qed.

Lemma stream_extends (f : FileAsset) w w' :
  extends w w' -> reader_allocated w f -> stream w' (OfFile f) = stream w (OfFile f).
Proof.
  intros (Henv & Hi & Hr & Hf) Halloc. unfold stream. cbn.
  destruct (reader (FileAsset_base f)) as [[[fd|]|rd]|] eqn:Hreader; cbn; try done.
  - specialize (Halloc fd Hreader). apply elem_of_dom in Halloc as [h Hh].
    unfold os.open_file. rewrite Hh, (Hf _ _ Hh).
    destruct (f_open h); [|done]. destruct (f_ino h); [|done].
    by rewrite (data_of_inodes w w').
  - by rewrite Hr.
Qed.

(** C10.  Any number of length queries on a disk asset leaves its read
    stream as it was: every query returns, no file object of the state is
    changed (each query opens and closes an object of its own), the inodes
    are the same, the bytes the asset has yet to yield are the same, and
    any sequence of reads returns after the queries what it returns without
    them. *)
Theorem GetLength_keeps_stream (f : FileAsset) (n : nat) (ps : list nat) (w : World) :
  reader_allocated w f ->
  ∃ ls w',
    lengths f n w = (Ok ls, w') ∧ length ls = n ∧
    (∀ fd h, w_files w !! fd = Some h -> w_files w' !! fd = Some h) ∧
    w_inodes w' = w_inodes w ∧
    stream w' (OfFile f) = stream w (OfFile f) ∧
    fst (reads f ps w') = fst (reads f ps w).
Proof.
  intros Halloc.
  assert (∃ ls w', lengths f n w = (Ok ls, w') ∧ length ls = n ∧ extends w w')
    as (ls & w' & Hrun & Hlen & Hext).
  { clear Halloc. revert w. induction n as [|n IH]; intros w.
    - exists [], w. split; [done|]. split; [done|]. apply extends_refl.
    - cbn [lengths]. run.
      destruct (GetLength_extends f w) as (x & w1 & -> & Hext1 & _). run.
      destruct (IH w1) as (xs & w2 & -> & Hlen & Hext2). run.
      exists (x :: xs), w2. split; [done|]. split; [by cbn; rewrite Hlen|].
      eauto using extends_trans. }
  exists ls, w'. split; [done|]. split; [done|].
  split; [apply Hext|]. split; [apply Hext|].
  split; [by apply stream_extends|]. by apply reads_extends.
Qed.

Lemma GetLength_keeps_stream_witness :
  ∃ ls w',
    lengths disk_config_asset 3 opened_config_world = (Ok ls, w') ∧ length ls = 3%nat ∧
    stream w' (OfFile disk_config_asset) = stream opened_config_world (OfFile disk_config_asset) ∧
    fst (reads disk_config_asset [4; 4; 4; 4]%nat w')
      = fst (reads disk_config_asset [4; 4; 4; 4]%nat opened_config_world).
Proof.
  destruct (GetLength_keeps_stream disk_config_asset 3 [4; 4; 4; 4]%nat opened_config_world)
    as (ls & w' & H1 & H2 & _ & _ & H5 & H6).
  - intros fd [= <-]. apply elem_of_dom. eexists. vm_compute. reflexivity.
  - exists ls, w'. repeat split; assumption.
Defined.

(** The worked states behave as said: the asset of the witness is the one
    [NewFileAsset] returns, three length queries return ten each time, and
    the reads that follow yield the ten bytes. *)
Example lengths_then_reads :
  fst (NewFileAsset "config.yaml" "/tmp/out" "config.yaml" "0644" config_world)
    = Ok (Some disk_config_asset, None) ∧
  fst (lengths disk_config_asset 3 opened_config_world) = Ok [10; 10; 10] ∧
  fst ((_ ← lengths disk_config_asset 3; reads disk_config_asset [4; 4; 4; 4]%nat)
         opened_config_world)
    = Ok [(bytes_of "key:", None); (bytes_of " val", None); (bytes_of "ue", None);
          ([], Some ErrEOF)].
Proof. repeat split; vm_compute; reflexivity. Qed.

Example overwrite_without_stat :
  let w := deny_stat "/tmp/out/config.yaml" stale_world in
  fst (CopyFileLocal 2 config_asset w) = Ok None ∧
  w_trace (snd (CopyFileLocal 2 config_asset w)) =
    [OpMkdirAll "/tmp/out"; OpStat "/tmp/out/config.yaml";
     OpCreate "/tmp/out/config.yaml"; OpChmod 0; OpWrite 0; OpClose 0] ∧
  file_at (snd (CopyFileLocal 2 config_asset w)) "/tmp/out/config.yaml" =
    Some {| i_data := bytes_of "key: value"; i_mode := octal 2 0 4 |}.
Proof. repeat split; vm_compute; reflexivity. Qed.


(** ** Further properties *)

(** *** What reads and writes leave alone *)

Lemma same_object_refl h : same_object h h.
Proof. by repeat split. Qed.

Lemma same_object_trans h1 h2 h3 :
  same_object h1 h2 -> same_object h2 h3 -> same_object h1 h3.
Proof.
  intros (?&?&?&?&?) (?&?&?&?&?). repeat split; try congruence. lia.
Qed.

Lemma objects_kept_refl w : objects_kept w w.
Proof. intros fd h Hh. exists h. split; [done|]. apply same_object_refl. Qed.

Lemma objects_kept_trans w1 w2 w3 :
  objects_kept w1 w2 -> objects_kept w2 w3 -> objects_kept w1 w3.
Proof.
  intros H12 H23 fd h Hh. destruct (H12 _ _ Hh) as (h2 & Hh2 & Hs2).
  destruct (H23 _ _ Hh2) as (h3 & Hh3 & Hs3). exists h3. split; [done|].
  by eapply same_object_trans.
Qed.

Lemma objects_kept_files w w' : w_files w' = w_files w -> objects_kept w w'.
Proof. intros H fd h Hh. exists h. rewrite H. split; [done|]. apply same_object_refl. Qed.

Lemma objects_kept_insert w w' fd h h1 :
  w_files w !! fd = Some h ->
  w_files w' = <[fd := h1]> (w_files w) ->
  same_object h h1 ->
  objects_kept w w'.
Proof.
  intros Hh Hf Hs fd' h' Hh'. rewrite Hf. destruct (decide (fd = fd')) as [<-|Hne].
  - rewrite lookup_insert_eq. eexists. split; [done|]. by simplify_eq.
  - rewrite lookup_insert_ne by done. exists h'. split; [done|]. apply same_object_refl.
Qed.

(** A read, of any size and with any outcome, changes no name and no
    inode, and keeps every file object. *)
Lemma Reader_Read_frame r n w res w1 :
  Reader_Read r n w = (res, w1) ->
  (∃ x, res = Ok x) ∧ same_env w w1 ∧ w_names w1 = w_names w ∧
  w_inodes w1 = w_inodes w ∧ objects_kept w w1.
Proof.
  destruct r as [[fd|]|r]; cbn [Reader_Read].
  - unfold os.File_Read. run.
    destruct (os.open_file w fd) as [h|] eqn:Hopen.
    2:{ intros [= <- <-]. split; [eauto|]. repeat split. apply objects_kept_refl. }
    apply open_file_Some in Hopen as [Hfd Hop].
    destruct (decide _); run.
    { intros [= <- <-]. split; [eauto|]. repeat split. apply objects_kept_refl. }
    destruct (w_fault w (OpRead fd)); run.
    { intros [= <- <-]. split; [eauto|]. repeat split. by apply objects_kept_files. }
    destruct (f_ino h) eqn:Hino; run.
    2:{ intros [= <- <-]. split; [eauto|]. repeat split. by apply objects_kept_files. }
    destruct (take _ _) as [|b bs] eqn:Ht; run.
    { intros [= <- <-]. split; [eauto|]. repeat split. by apply objects_kept_files. }
    intros [= <- <-]. split; [eauto|]. repeat split.
    eapply (objects_kept_insert _ _ fd h); [exact Hfd|done|].
    repeat split; cbn; first [done | congruence | lia].
  - unfold os.File_Read. run. intros [= <- <-]. split; [eauto|]. repeat split.
    apply objects_kept_refl.
  - unfold bytes_Reader_Read. run.
    destruct (default [] (w_readers w !! r)); run; intros [= <- <-];
      (split; [eauto|]); repeat split; by apply objects_kept_files.
Qed.

(** A write changes no name and no mode, keeps every file object, and
    touches no inode but the one of the file written. *)
Lemma File_Write_frame f bs w res w1 :
  os.File_Write f bs w = (res, w1) ->
  same_env w w1 ∧ w_names w1 = w_names w ∧ objects_kept w w1 ∧
  (∀ ino, mode_of w1 ino = mode_of w ino) ∧
  (∀ i, (∀ fd h, f = Some fd -> w_files w !! fd = Some h -> f_ino h ≠ Some i) ->
        w_inodes w1 !! i = w_inodes w !! i).
Proof.
  unfold os.File_Write. destruct f as [fd|]; run.
  2:{ intros [= <- <-]. repeat split. apply objects_kept_refl. }
  destruct (os.open_file w fd) as [h|] eqn:Hopen.
  2:{ intros [= <- <-]. repeat split. apply objects_kept_refl. }
  run. apply open_file_Some in Hopen as [Hfd Hop].
  destruct (w_fault w (OpWrite fd)).
  { intros [= <- <-]. repeat split. by apply objects_kept_files. }
  destruct (f_ino h) as [ino|] eqn:Hino.
  2:{ intros [= <- <-]. repeat split. by apply objects_kept_files. }
  destruct (f_write h) eqn:Hw.
  2:{ intros [= <- <-]. repeat split. by apply objects_kept_files. }
  run. intros [= <- <-]. split; [done|]. split; [done|]. split.
  { eapply (objects_kept_insert _ _ fd h); [exact Hfd|done|].
    repeat split; cbn; first [done | congruence | lia]. }
  split.
  - intros i. unfold mode_of. cbn. destruct (decide (ino = i)) as [<-|Hne].
    + rewrite lookup_insert_eq. done.
    + by rewrite lookup_insert_ne.
  - intros i Hi. cbn. rewrite lookup_insert_ne; [done|].
    intros <-. by eapply Hi.
Qed.

Lemma asset_Read_frame (a : Asset) n w res w1 :
  Read a n w = (res, w1) ->
  same_env w w1 ∧ w_names w1 = w_names w ∧ w_inodes w1 = w_inodes w ∧
  objects_kept w w1 ∧
  (∀ msg, res = Panic msg ->
     msg = nil_dereference ∧ reader (asset_base a) = None ∧ ∃ m, a = OfMemory m) ∧
  res ≠ Timeout.
Proof.
  destruct a as [[b]|[b]]; cbn; unfold FileAsset_Read, MemoryAsset_Read; cbn;
    destruct (reader b) as [r|].
  - intros H. apply Reader_Read_frame in H as ([x ->] & ? & ? & ? & ?).
    repeat (split; [done|]). done.
  - intros [= <- <-]. split; [apply same_env_refl|].
    repeat (split; [first [done | apply objects_kept_refl]|]). done.
  - intros H. apply Reader_Read_frame in H as ([x ->] & ? & ? & ? & ?).
    repeat (split; [done|]). done.
  - intros [= <- <-]. split; [apply same_env_refl|].
    repeat (split; [first [done | apply objects_kept_refl]|]).
    split; [|done]. intros msg [= <-]. eauto.
Qed.

(** The loop of [io.Copy] from an asset into the file object [fd] of inode
    [ino]: names and modes stay, file objects are kept, no other inode is
    touched, and only a memory asset without a reader makes it panic. *)
Lemma copy_loop_frame (a : Asset) fd h ino fuel : ∀ written w res w',
  w_files w !! fd = Some h -> f_ino h = Some ino ->
  io.copy_loop fuel (Some fd) (Read a) written w = (res, w') ->
  same_env w w' ∧ w_names w' = w_names w ∧ objects_kept w w' ∧
  (∀ i, mode_of w' i = mode_of w i) ∧
  (∀ i, i ≠ ino -> w_inodes w' !! i = w_inodes w !! i) ∧
  (∀ msg, res = Panic msg ->
     msg = nil_dereference ∧ reader (asset_base a) = None ∧ ∃ m, a = OfMemory m).
Proof.
  revert h. induction fuel as [|fuel IH]; intros h written w res w' Hfd Hino.
  { intros [= <- <-]. split; [apply same_env_refl|].
    repeat split; try done. apply objects_kept_refl. }
  cbn [io.copy_loop]. run.
  destruct (Read a io.copy_buf_size w) as [r1 w1] eqn:Hread.
  apply asset_Read_frame in Hread as (Henv1 & Hn1 & Hi1 & Hk1 & Hp1 & Ht1).
  assert (Hm1 : ∀ i, mode_of w1 i = mode_of w i).
  { intros i. unfold mode_of. by rewrite Hi1. }
  destruct r1 as [[buf er]|msg|]; [| |by destruct Ht1].
  2:{ intros [= <- <-]. repeat (split; [done|]). split; [|by intros ? [= <-]; apply Hp1].
      intros i _. by rewrite Hi1. }
  cbn beta iota.
  destruct (Hk1 _ _ Hfd) as (h1 & Hfd1 & Hs1).
  assert (Hino1 : f_ino h1 = Some ino).
  { destruct Hs1 as (_ & -> & _). done. }
  assert (Hend : ∀ x : Res (Z * option error), (∀ msg, x ≠ Panic msg) ->
    (x, w1) = (res, w') ->
    same_env w w' ∧ w_names w' = w_names w ∧ objects_kept w w' ∧
    (∀ i, mode_of w' i = mode_of w i) ∧
    (∀ i, i ≠ ino -> w_inodes w' !! i = w_inodes w !! i) ∧
    (∀ msg, res = Panic msg ->
       msg = nil_dereference ∧ reader (asset_base a) = None ∧ ∃ m, a = OfMemory m)).
  { intros x Hx [= <- <-]. repeat (split; [done|]).
    split; [intros i _; by rewrite Hi1|]. intros msg ->. by destruct (Hx msg). }
  destruct buf as [|b buf]; run.
  - destruct er as [e|].
    + destruct e; apply Hend; done.
    + intros H. eapply IH in H as (He & Hn & Hk & Hm & Hi & Hp); [|done..].
      split; [eauto using same_env_trans|]. split; [congruence|].
      split; [eauto using objects_kept_trans|]. split; [intros i; by rewrite Hm|].
      split; [|done]. intros i Hne. by rewrite Hi, Hi1.
  - destruct (os.File_Write (Some fd) (b :: buf) w1) as [r2 w2] eqn:Hwrite.
    destruct (File_Write_spec _ _ _ _ _ Hwrite) as (nw & ew & -> & _).
    apply File_Write_frame in Hwrite as (Henv2 & Hn2 & Hk2 & Hm2 & Hi2).
    cbn beta iota.
    assert (Hend2 : ∀ x : Res (Z * option error), (∀ msg, x ≠ Panic msg) ->
      (x, w2) = (res, w') ->
      same_env w w' ∧ w_names w' = w_names w ∧ objects_kept w w' ∧
      (∀ i, mode_of w' i = mode_of w i) ∧
      (∀ i, i ≠ ino -> w_inodes w' !! i = w_inodes w !! i) ∧
      (∀ msg, res = Panic msg ->
         msg = nil_dereference ∧ reader (asset_base a) = None ∧ ∃ m, a = OfMemory m)).
    { intros x Hx [= <- <-].
      split; [eauto using same_env_trans|]. split; [congruence|].
      split; [eauto using objects_kept_trans|]. split; [intros i; by rewrite Hm2|].
      split.
      - intros i Hne. rewrite Hi2, Hi1; [done|].
        intros fd' h' [= <-] Hh'. rewrite Hfd1 in Hh'. simplify_eq. congruence.
      - intros msg ->. by destruct (Hx msg). }
    destruct (Hk2 _ _ Hfd1) as (h2 & Hfd2 & Hs2).
    assert (Hino2 : f_ino h2 = Some ino).
    { destruct Hs2 as (_ & -> & _). done. }
    destruct ew as [e|]; run; [by apply Hend2|].
    destruct (decide _); run; [|by apply Hend2].
    destruct er as [e'|].
    + destruct e'; apply Hend2; done.
    + intros H. eapply IH in H as (He & Hn & Hk & Hm & Hi & Hp); [|done..].
      split; [eauto using same_env_trans|]. split; [congruence|].
      split; [eauto using objects_kept_trans|].
      split; [intros i; by rewrite Hm, Hm2|].
      split; [|done]. intros i Hne. rewrite Hi by done. rewrite Hi2; [by rewrite Hi1|].
      intros fd' h' [= <-] Hh'. rewrite Hfd1 in Hh'. simplify_eq. congruence.
Qed.

Lemma File_Chmod_frame fd h ino mode w res w1 :
  w_files w !! fd = Some h -> f_ino h = Some ino ->
  os.File_Chmod (Some fd) mode w = (res, w1) ->
  (∀ i, i ≠ ino -> w_inodes w1 !! i = w_inodes w !! i) ∧
  (res = Ok None -> mode_of w1 ino = os.syscallMode mode).
Proof.
  intros Hfd Hino. unfold os.File_Chmod. run. unfold os.open_file. rewrite Hfd.
  destruct (f_open h); run; [|by intros [= <- <-]].
  destruct (w_fault w (OpChmod fd)); run; [by intros [= <- <-]|].
  rewrite Hino. run. intros [= <- <-]. split.
  - intros i Hne. cbn. by rewrite lookup_insert_ne.
  - intros _. unfold mode_of. cbn. by rewrite lookup_insert_eq.
Qed.

(** Closing a file: the error, if any, is that of the system, not a
    wrapped one; the object, if it was open, is closed afterwards, with or
    without an error; its inode stays. *)
Lemma File_Close_result fd w res w1 :
  os.File_Close (Some fd) w = (res, w1) ->
  ∃ e, res = Ok e ∧ (∀ msg c, e ≠ Some (ErrWrap msg c)) ∧
    (e = None -> ∃ h, w_files w1 !! fd = Some h ∧ f_open h = false) ∧
    (∀ h, w_files w !! fd = Some h ->
       ∃ h', w_files w1 !! fd = Some h' ∧ f_ino h' = f_ino h ∧
             (f_open h = true -> f_open h' = false)).
Proof.
  unfold os.File_Close. run.
  destruct (os.open_file w fd) as [h|] eqn:Hopen.
  2:{ intros [= <- <-]. eexists. split; [done|]. split; [done|]. split; [done|].
      intros h Hh. exists h. split; [done|]. split; [done|]. intros Hop.
      unfold os.open_file in Hopen. by rewrite Hh, Hop in Hopen. }
  run. apply open_file_Some in Hopen as [Hfd Hop].
  intros [= <- <-]. eexists. split; [done|]. split.
  { by destruct (w_fault w (OpClose fd)). }
  cbn. rewrite lookup_insert_eq. split; [eauto|].
  intros h' Hh'. simplify_eq. eauto.
Qed.

(** The steps after the creation, [fd] being the file object of the
    destination and [ino] its inode: what they keep, and how they leave the
    file object. *)
Lemma copy_tail_frame (a : Asset) fuel fd name ino w res w' :
  w_files w !! fd = Some (created name ino) ->
  copy_tail a fuel fd w = (res, w') ->
  same_env w w' ∧ w_names w' = w_names w ∧
  (∀ fd' h, fd' ≠ fd -> w_files w !! fd' = Some h ->
     ∃ h', w_files w' !! fd' = Some h' ∧ same_object h h') ∧
  (∀ i, i ≠ ino -> w_inodes w' !! i = w_inodes w !! i) ∧
  (∀ msg, res = Panic msg ->
     msg = nil_dereference ∧ reader (asset_base a) = None ∧ ∃ m, a = OfMemory m) ∧
  (∃ h', w_files w' !! fd = Some h' ∧ f_ino h' = Some ino ∧
     match res with
     | Ok (Some (ErrWrap _ _)) | Panic _ | Timeout => f_open h' = true
     | Ok _ => f_open h' = false
     end) ∧
  (res = Ok None ->
     ∃ n, strconv.Atoi (Permissions (asset_base a)) = (n, None) ∧
          mode_of w' ino = os.syscallMode (os.FileMode n)).
Proof.
  intros Hfd. unfold copy_tail.
  destruct (strconv.Atoi (Permissions (asset_base a))) as [perms [e|]]; run.
  { intros [= <- <-]. split; [apply same_env_refl|]. split; [done|].
    split; [intros fd' h _ Hh; exists h; split; [done|apply same_object_refl]|].
    split; [done|]. split; [done|]. split; [|done].
    eexists. split; [exact Hfd|]. done. }
  destruct (os.File_Chmod _ _ w) as [r5 w5] eqn:E5.
  destruct (File_Chmod_frame _ _ _ _ _ _ _ Hfd eq_refl E5) as (Hi5 & Hm5).
  apply File_Chmod_spec in E5 as (e5 & -> & Henv5 & Hn5 & _ & Hf5 & _ & _ & _).
  assert (Hfd5 : w_files w5 !! fd = Some (created name ino)) by by rewrite Hf5.
  destruct e5 as [e5|]; run.
  { intros [= <- <-]. split; [done|]. split; [done|].
    split; [intros fd' h _ Hh; exists h; rewrite Hf5; split; [done|apply same_object_refl]|].
    split; [done|]. split; [done|]. split; [|done].
    eexists. split; [exact Hfd5|]. done. }
  specialize (Hm5 eq_refl).
  unfold io.Copy.
  destruct (io.copy_loop _ _ _ _ w5) as [r6 w6] eqn:E6.
  destruct (copy_loop_frame _ _ _ _ _ _ _ _ _ Hfd5 eq_refl E6)
    as (Henv6 & Hn6 & Hk6 & Hm6 & Hi6 & Hp6).
  destruct (Hk6 _ _ Hfd5) as (h6 & Hfd6 & (_ & Hino6 & _ & Hop6 & _)).
  cbn in Hino6, Hop6.
  assert (Hothers : ∀ fd' h, fd' ≠ fd -> w_files w !! fd' = Some h ->
            ∃ h', w_files w6 !! fd' = Some h' ∧ same_object h h').
  { intros fd' h _ Hh. apply Hk6. by rewrite Hf5. }
  assert (Hinodes : ∀ i, i ≠ ino -> w_inodes w6 !! i = w_inodes w !! i).
  { intros i Hne. by rewrite Hi6, Hi5. }
  assert (Henv : same_env w w6) by eauto using same_env_trans.
  assert (Hnames : w_names w6 = w_names w) by congruence.
  destruct r6 as [[n [e6|]]|msg|]; run.
  - intros [= <- <-]. repeat (split; [done|]). split; [|done].
    exists h6. by repeat split.
  - intros E7. destruct (File_Close_result _ _ _ _ E7) as (e7 & -> & Hnw & Hcl & Hin).
    apply File_Close_spec in E7 as (? & [= <-] & Henv7 & Hn7 & _ & Hi7 & _ & Hf7 & _).
    split; [eauto using same_env_trans|]. split; [congruence|]. split.
    { intros fd' h Hne Hh. rewrite Hf7 by congruence. by apply Hothers. }
    split; [intros i Hne; by rewrite Hi7, Hinodes|]. split; [done|]. split.
    + destruct (Hin _ Hfd6) as (h7 & Hfd7 & Hino7 & Hcl7). exists h7. split; [done|].
      split; [congruence|]. specialize (Hcl7 Hop6). destruct e7 as [[]|]; try done.
      by destruct (Hnw msg cause).
    + intros [= ->]. exists perms. split; [done|].
      transitivity (mode_of w6 ino); [unfold mode_of; by rewrite Hi7|].
      rewrite Hm6. exact Hm5.
  - intros [= <- <-]. repeat (split; [done|]).
    split; [intros ? [= <-]; by apply Hp6|]. split; [|done].
    exists h6. by repeat split.
  - intros [= <- <-]. repeat (split; [done|]). split; [|done].
    exists h6. by repeat split.
Qed.

(** *** The names the preparing calls leave alone *)

Lemma lookup_mkdirs (l : list (list string)) (m : gmap (list string) Node) p :
  foldr (λ q m, <[q := NDir]> m) m l !! p = if decide (p ∈ l) then Some NDir else m !! p.
Proof.
  induction l as [|q l IH]; cbn.
  { destruct (decide (p ∈ [])) as [H|H]; [by apply elem_of_nil in H|done]. }
  destruct (decide (q = p)) as [->|Hne].
  - rewrite lookup_insert_eq. rewrite decide_True; [done|by left].
  - rewrite lookup_insert_ne by done. rewrite IH.
    destruct (decide (p ∈ l)) as [Hin|Hin].
    + rewrite decide_True; [done|by right].
    + rewrite decide_False; [done|]. rewrite not_elem_of_cons. split; congruence.
Qed.

(** [os.MkdirAll] removes and replaces nothing: a name that denoted
    something denotes it still, and a name that denoted nothing denotes
    nothing or a directory. *)
Lemma MkdirAll_names_kept name perm w r w1 p :
  os.MkdirAll name perm w = (r, w1) ->
  os.node_at w1 p = os.node_at w p ∨
  (os.node_at w p = None ∧ os.node_at w1 p = Some NDir).
Proof.
  unfold os.MkdirAll. run.
  destruct (w_fault w (OpMkdirAll name)); run; [intros [= <- <-]; by left|].
  destruct (decide _); run; [intros [= <- <-]; by left|].
  destruct (existsb _ _) eqn:Hex; run; [intros [= <- <-]; by left|].
  intros [= <- <-]. destruct p as [|c p]; [by left|]. cbn.
  rewrite lookup_mkdirs. destruct (decide _) as [Hin|Hin]; [|by left].
  destruct (w_names w !! (c :: p)) as [[|i]|] eqn:Hn; [by left| |by right].
  exfalso.
  assert (existsb (os.is_file (log (OpMkdirAll name) w))
            (os.ancestors (os.resolve (log (OpMkdirAll name) w) name)) = true)
    as Hc; [|congruence].
  apply existsb_exists. exists (c :: p). split; [by apply list_elem_of_In|].
  unfold os.is_file. cbn. by rewrite Hn.
Qed.

Lemma Remove_names name w r w1 p :
  os.Remove name w = (r, w1) ->
  p ≠ os.resolve w name ->
  os.node_at w1 p = os.node_at w p.
Proof.
  intros E Hp. destruct p as [|c p]; [done|]. cbn. revert E.
  unfold os.Remove. run.
  destruct (w_fault w (OpRemove name)); run; [by intros [= <- <-]|].
  destruct (decide _); run; [by intros [= <- <-]|].
  change (os.resolve (log (OpRemove name) w) name) with (os.resolve w name).
  destruct (os.node_at _ _) as [[|ino]|]; run.
  - destruct (decide _); run; [by intros [= <- <-]|].
    destruct (os.has_entries _ _); run; [by intros [= <- <-]|].
    intros [= <- <-]. cbn. by rewrite lookup_delete_ne.
  - intros [= <- <-]. cbn. by rewrite lookup_delete_ne.
  - by intros [= <- <-].
Qed.

Lemma Create_names name w r w1 p :
  os.Create name w = (r, w1) ->
  p ≠ os.resolve w name ->
  os.node_at w1 p = os.node_at w p.
Proof.
  intros E Hp. destruct p as [|c p]; [done|]. cbn. revert E.
  unfold os.Create. run.
  destruct (w_fault w (OpCreate name)); run; [by intros [= <- <-]|].
  destruct (decide _); run; [by intros [= <- <-]|].
  change (os.resolve (log (OpCreate name) w) name) with (os.resolve w name).
  change (os.node_at (log (OpCreate name) w)) with (os.node_at w).
  destruct (os.node_at w (os.resolve w name)) as [[|ino]|]; run.
  - by intros [= <- <-].
  - by intros [= <- <-].
  - destruct (os.node_at w (removelast _)) as [[|i]|]; run.
    + intros [= <- <-]. cbn. by rewrite lookup_insert_ne.
    + by intros [= <- <-].
    + by intros [= <- <-].
Qed.

Lemma remove_if_found_spec path e2 w e3 w3 :
  remove_if_found path e2 w = (Ok e3, w3) ->
  same_env w w3 ∧ w_inodes w3 = w_inodes w ∧ w_files w3 = w_files w ∧
  w_readers w3 = w_readers w ∧
  (∀ p, p ≠ os.resolve w path -> os.node_at w3 p = os.node_at w p) ∧
  (e2 = None -> e3 = None -> os.node_at w3 (os.resolve w path) = None).
Proof.
  unfold remove_if_found. destruct e2 as [e2|].
  - intros [= <- <-]. split; [apply same_env_refl|]. by repeat split.
  - intros E. pose proof (λ p, Remove_names _ _ _ _ p E) as Hn.
    apply Remove_spec in E as (? & [= <-] & ? & ? & ? & ? & ? & Hdel).
    repeat (split; [done|]).
    intros _ ->. destruct (Hdel eq_refl) as [Hnames Hne].
    destruct (os.resolve w path) as [|c p] eqn:Hp; [done|]. cbn.
    rewrite Hnames. apply lookup_delete_eq.
Qed.

(** *** The whole of CopyFileLocal *)

(** Whatever the outcome of [CopyFileLocal]: the environment and the file
    objects of the caller are kept; but for the destination, every name
    denotes what it did, or a directory where it denoted nothing; only the
    inode of the destination changes; either no file object was made, or
    the one of the destination is there, closed when the copy got to its
    final [Close] and open otherwise. *)
Lemma CopyFileLocal_frame (a : Asset) fuel w res w' :
  let dir := TargetDir (asset_base a) in
  let path := target_path a in
  let fd := fresh (dom (w_files w)) in
  CopyFileLocal fuel a w = (res, w') ->
  same_env w w' ∧ objects_kept w w' ∧
  (∀ p, p ≠ os.resolve w path ->
        os.node_at w' p = os.node_at w p ∨
        (os.node_at w p = None ∧ os.node_at w' p = Some NDir)) ∧
  (∀ i, os.node_at w' (os.resolve w' path) ≠ Some (NFile i) ->
        w_inodes w' !! i = w_inodes w !! i) ∧
  (∀ msg, res = Panic msg ->
     msg = nil_dereference ∧ reader (asset_base a) = None ∧ ∃ m, a = OfMemory m) ∧
  ((w_files w' = w_files w ∧ w_inodes w' = w_inodes w ∧
    ∃ msg c, res = Ok (Some (ErrWrap msg c)))
   ∨
   (∃ ino h', os.node_at w' (os.resolve w' path) = Some (NFile ino) ∧
      w_files w' !! fd = Some h' ∧ f_ino h' = Some ino ∧
      match res with
      | Ok (Some (ErrWrap _ _)) | Panic _ | Timeout => f_open h' = true
      | Ok _ => f_open h' = false
      end ∧
      (res = Ok None ->
         ∃ n, strconv.Atoi (Permissions (asset_base a)) = (n, None) ∧
              mode_of w' ino = os.syscallMode (os.FileMode n)))).
Proof.
  intros dir path fd Hrun.
  destruct (CopyFileLocal_steps a fuel w) as (e1 & w1 & Hmk & Hcases).
  fold dir path in Hmk, Hcases.
  pose proof (λ p, MkdirAll_names_kept _ _ _ _ _ p Hmk) as Hn1.
  destruct (MkdirAll_spec _ _ _ _ _ Hmk) as (? & [= <-] & Henv1 & _ & Hi1 & Hf1 & Hr1 & _).
  destruct e1 as [c|].
  { rewrite Hcases in Hrun. injection Hrun as <- <-.
    split; [done|]. split; [by apply objects_kept_files|].
    split; [intros p _; by apply Hn1|]. split; [intros i _; by rewrite Hi1|].
    split; [done|]. left. split; [done|]. split; [done|]. unfold step_error. eauto. }
  destruct Hcases as (fi & e2 & e3 & w3 & Hstat & Hrm & Hcases).
  set (w2 := log (OpStat path) w1) in *.
  destruct (remove_if_found_spec _ _ _ _ _ Hrm) as (Henv3 & Hi3 & Hf3 & Hr3 & Hn3 & _).
  assert (Hres1 : os.resolve w1 path = os.resolve w path) by by apply resolve_same_env.
  assert (Henv13 : same_env w w3).
  { eapply same_env_trans; [exact Henv1|]. eapply same_env_trans; [|exact Henv3].
    by repeat split. }
  assert (Hnames3 : ∀ p, p ≠ os.resolve w path ->
            os.node_at w3 p = os.node_at w p ∨
            (os.node_at w p = None ∧ os.node_at w3 p = Some NDir)).
  { intros p Hp. rewrite Hn3; [by apply Hn1|]. by rewrite <- Hres1 in Hp. }
  assert (Hfw : w_files w3 = w_files w) by by rewrite Hf3; cbn; rewrite Hf1.
  assert (Hiw : w_inodes w3 = w_inodes w) by by rewrite Hi3; cbn; rewrite Hi1.
  destruct e3 as [c|].
  { rewrite Hcases in Hrun. injection Hrun as <- <-.
    split; [done|]. split; [by apply objects_kept_files|].
    split; [done|]. split; [intros i _; by rewrite Hiw|].
    split; [done|]. left. split; [done|]. split; [done|]. unfold step_error. eauto. }
  destruct Hcases as (t & e4 & w4 & Hcr & Hcases).
  pose proof (λ p, Create_names _ _ _ _ p Hcr) as Hn4.
  destruct (Create_spec _ _ _ _ Hcr) as (? & ? & [= <- <-] & Henv4 & _ & _ & Herr4 & Hok4).
  assert (Hres3 : os.resolve w3 path = os.resolve w path) by by apply resolve_same_env.
  assert (Hnames4 : ∀ p, p ≠ os.resolve w path ->
            os.node_at w4 p = os.node_at w p ∨
            (os.node_at w p = None ∧ os.node_at w4 p = Some NDir)).
  { intros p Hp. rewrite Hn4; [by apply Hnames3|]. by rewrite Hres3. }
  assert (Henv14 : same_env w w4) by eauto using same_env_trans.
  destruct e4 as [c|].
  { rewrite Hcases in Hrun. injection Hrun as <- <-.
    destruct Herr4 as (_ & Hi4 & Hf4); [done|].
    split; [done|]. split; [apply objects_kept_files; congruence|].
    split; [done|]. split; [intros i _; by rewrite Hi4, Hiw|].
    split; [done|]. left. split; [congruence|]. split; [congruence|].
    unfold step_error. eauto. }
  destruct Hcases as (-> & Htail). rewrite Htail in Hrun. clear Htail.
  destruct Hok4 as (ino & mode & _ & Hf4 & Hi4 & Hnode4 & _); [done|].
  rewrite Hfw in Hf4, Hrun. fold fd in Hf4, Hrun.
  assert (Hfd4 : w_files w4 !! fd = Some (created path ino)).
  { by rewrite Hf4, lookup_insert_eq. }
  destruct (copy_tail_frame _ _ _ _ _ _ _ _ Hfd4 Hrun)
    as (Henv & Hn & Hk & Hi & Hp & Hobj & Hmode).
  assert (Henvw : same_env w w') by eauto using same_env_trans.
  assert (Hnode : os.node_at w' (os.resolve w' path) = Some (NFile ino)).
  { rewrite (resolve_same_env w3 w') by eauto using same_env_trans.
    by rewrite (node_at_names w4 w'). }
  split; [done|]. split.
  { intros fd' h Hh. apply Hk.
    - intros ->. apply elem_of_dom_2 in Hh. by apply is_fresh in Hh.
    - rewrite Hf4, lookup_insert_ne; [done|].
      intros <-. apply elem_of_dom_2 in Hh. by apply is_fresh in Hh. }
  split.
  { intros p Hp1. rewrite (node_at_names w4 w') by done. by apply Hnames4. }
  split.
  { intros i Hne. assert (i ≠ ino) as Hne' by congruence.
    rewrite Hi by done. rewrite Hi4, lookup_insert_ne by done. by rewrite Hiw. }
  split; [done|]. right. destruct Hobj as (h' & Hh' & Hino' & Hopen).
  exists ino, h'. done.
Qed.

(** X1.  [CopyFileLocal] keeps every file object of the caller, whatever
    its outcome: each one is still in the table with the same name, inode
    and access, open if it was open, its offset not moved back.  The copy
    closes no file but the one it made: the file a disk asset reads from
    is left open. *)
Theorem CopyFileLocal_keeps_file_objects (a : Asset) (fuel : nat) (w : World) :
  objects_kept w (snd (CopyFileLocal fuel a w)).
Proof.
  destruct (CopyFileLocal fuel a w) as [res w'] eqn:E.
  by apply CopyFileLocal_frame in E as (_ & ? & _).
Qed.


Lemma perm_bits_syscallMode (m : Z) : perm_bits (os.syscallMode m) = perm_bits m.
Proof.
  unfold perm_bits, os.syscallMode.
  rewrite !Z.land_lor_distr_l, <- Z.land_assoc, Z.land_diag.
  destruct (Z.land m os.ModeSetuid =? 0), (Z.land m os.ModeSetgid =? 0),
    (Z.land m os.ModeSticky =? 0);
    change (Z.land 0 os.ModePerm) with 0; change (Z.land 2048 os.ModePerm) with 0;
    change (Z.land 1024 os.ModePerm) with 0; change (Z.land 512 os.ModePerm) with 0;
    by rewrite !Z.lor_0_r.
Qed.

(** X3.  After a copy without error the destination is a regular file
    whose nine permission bits (read, write and execute for the owner, the
    group and the others) are those of the permission string parsed in
    base ten, whatever the state it started from. *)
Theorem CopyFileLocal_sets_parsed_mode (a : Asset) (fuel : nat) (w w' : World) :
  CopyFileLocal fuel a w = (Ok None, w') ->
  ∃ n ino,
    strconv.Atoi (Permissions (asset_base a)) = (n, None) ∧
    os.node_at w' (os.resolve w' (target_path a)) = Some (NFile ino) ∧
    perm_bits (mode_of w' ino) = perm_bits (os.FileMode n).
Proof.
  intros E. apply CopyFileLocal_frame in E as (_ & _ & _ & _ & _ & Hcases).
  destruct Hcases as [(_ & _ & msg & c & [=]) | (ino & h' & Hnode & _ & _ & _ & Hmode)].
  destruct (Hmode eq_refl) as (n & Hn & Hm). exists n, ino.
  split; [done|]. split; [done|]. rewrite Hm. apply perm_bits_syscallMode.
Qed.

Lemma CopyFileLocal_sets_parsed_mode_witness :
  ∃ n ino,
    strconv.Atoi "0644" = (n, None) ∧
    os.node_at (snd (CopyFileLocal 2 config_asset stale_world))
      (os.resolve (snd (CopyFileLocal 2 config_asset stale_world)) "/tmp/out/config.yaml")
      = Some (NFile ino) ∧
    perm_bits (mode_of (snd (CopyFileLocal 2 config_asset stale_world)) ino)
      = perm_bits (os.FileMode n).
Proof.
  apply (CopyFileLocal_sets_parsed_mode config_asset 2 stale_world
           (snd (CopyFileLocal 2 config_asset stale_world))).
  vm_compute. reflexivity.
Defined.

(** X4.  The file object of the destination is closed exactly when the
    copy gets to its final [Close]: after a copy without error, and after
    a copy whose only failure is that [Close], which returns the error of
    the system as it is, not wrapped.  After a wrapped error (of any of
    the steps before), after a panic, and when the loop of the model runs
    out of fuel, either no file object was made or the one of the
    destination is still open. *)
Theorem CopyFileLocal_closes_at_final_Close (a : Asset) (fuel : nat) (w : World) :
  let fd := fresh (dom (w_files w)) in
  match CopyFileLocal fuel a w with
  | (Ok (Some (ErrWrap _ _)), w') | (Panic _, w') | (Timeout, w') =>
      w_files w' = w_files w ∨ ∃ h, w_files w' !! fd = Some h ∧ f_open h = true
  | (Ok _, w') => ∃ h, w_files w' !! fd = Some h ∧ f_open h = false
  end.
Proof.
  intros fd. destruct (CopyFileLocal fuel a w) as [res w'] eqn:E.
  apply CopyFileLocal_frame in E as (_ & _ & _ & _ & _ & Hcases). fold fd in Hcases.
  destruct Hcases as [(Hf & _ & msg & c & ->) | (ino & h' & _ & Hh' & _ & Hopen & _)].
  - by left.
  - destruct res as [[[]|]| |]; eauto.
Qed.

(** The two ends of it: a copy whose [Close] the environment fails
    returns the unwrapped error and leaves the object closed; a copy whose
    [Chmod] fails returns a wrapped error and leaves the object open. *)
Example close_and_chmod_failures :
  let close_fails := {| w_cwd := []; w_umask := 18; w_dir_size := 4096;
                        w_names := ∅; w_inodes := ∅; w_files := ∅;
                        w_readers := {[ 0%nat := bytes_of "key: value" ]};
                        w_fault := λ op, match op with
                                         | OpClose _ => Some EIO
                                         | _ => None
                                         end;
                        w_trace := [] |} in
  let chmod_fails := {| w_cwd := []; w_umask := 18; w_dir_size := 4096;
                        w_names := ∅; w_inodes := ∅; w_files := ∅;
                        w_readers := {[ 0%nat := bytes_of "key: value" ]};
                        w_fault := λ op, match op with
                                         | OpChmod _ => Some EIO
                                         | _ => None
                                         end;
                        w_trace := [] |} in
  fst (CopyFileLocal 2 config_asset close_fails)
    = Ok (Some (ErrPath "close" "/tmp/out/config.yaml" EIO)) ∧
  f_open <$> w_files (snd (CopyFileLocal 2 config_asset close_fails)) !! 0%nat
    = Some false ∧
  f_open <$> w_files (snd (CopyFileLocal 2 config_asset chmod_fails)) !! 0%nat
    = Some true.
Proof. repeat split; vm_compute; reflexivity. Qed.

(** *** The bytes copied *)

Lemma Reader_Read_eof r n w bs w1 :
  Reader_Read r n w = (Ok (bs, Some ErrEOF), w1) -> unread w1 r = [].
Proof.
  destruct r as [[fd|]|r]; cbn [Reader_Read].
  - unfold os.File_Read. run.
    destruct (os.open_file w fd) as [h|] eqn:Hopen; [|done].
    destruct (decide _); run; [done|].
    destruct (w_fault w (OpRead fd)); run; [done|].
    destruct (f_ino h) as [ino|] eqn:Hino; run; [|done].
    change (os.data_of (log (OpRead fd) w) ino) with (os.data_of w ino).
    destruct (take n (drop (f_off h) (os.data_of w ino))) as [|b l] eqn:Ht; run; [|done].
    intros [= <- <-]. cbn.
    change (os.open_file (log (OpRead fd) w) fd) with (os.open_file w fd).
    rewrite Hopen, Hino.
    change (os.data_of (log (OpRead fd) w) ino) with (os.data_of w ino).
    destruct (drop (f_off h) (os.data_of w ino)); [done|]. by destruct n.
  - unfold os.File_Read. by run.
  - unfold bytes_Reader_Read. run.
    destruct (default [] (w_readers w !! r)) eqn:Hd; run; [|done].
    intros [= <- <-]. cbn. by rewrite Hd.
Qed.

(** A copy from a reader apart from the destination that ends without an
    error has read the reader to its end. *)
Lemma copy_loop_drains fuel : ∀ w written r fdt name new acc n w',
  w_files w !! fdt = Some (advance (created name new) (length acc)) ->
  os.data_of w new = acc ->
  apart w r fdt new ->
  io.copy_loop fuel (Some fdt) (Reader_Read r) written w = (Ok (n, None), w') ->
  unread w' r = [] ∧ apart w' r fdt new.
Proof.
  induction fuel as [|fuel IH]; intros w written r fdt name new acc n w' Hfdt Hdata Hap.
  { done. }
  cbn [io.copy_loop]. run.
  destruct (Reader_Read r io.copy_buf_size w) as [res w1] eqn:Hread.
  pose proof Hread as Hread'.
  apply Reader_Read_spec in Hread
    as (bs & er & -> & Henv1 & Hnames1 & Hino1 & _ & Hfiles1 & Hback & Her);
    [|apply copy_buf_size_pos].
  cbn beta iota.
  assert (Hfdt1 : w_files w1 !! fdt = Some (advance (created name new) (length acc))).
  { rewrite Hfiles1; [done|]. intros ->. destruct Hap as [? _]. done. }
  assert (Hap1 : apart w1 r fdt new).
  { destruct r as [[fdr|]|r]; try done. destruct Hap as [Hne Hi]. split; [done|].
    intros h1 Hh1. destruct (Hback _ _ Hh1) as (h & Hh & ->). by eapply Hi. }
  assert (Hdata1 : os.data_of w1 new = acc).
  { by rewrite (data_of_inodes w w1). }
  destruct er as [e|].
  - destruct Her as [-> Heof]. run.
    destruct e; try (intros [= _ _]; done).
    intros [= _ <-]. split; [by eapply Reader_Read_eof|]. done.
  - destruct Her as [Hbs Hun]. destruct bs as [|b bs]; [done|]. run.
    destruct (os.File_Write (Some fdt) (b :: bs) w1) as [res w2] eqn:Hwrite.
    apply File_Write_spec in Hwrite
      as (nw & ew & -> & Henv2 & Hnames2 & Hr2 & _ & _ & Hok).
    cbn beta iota. destruct ew as [e|]; run; [intros [= _ _]; done|].
    destruct Hok as (fd & h & ino & mode & [= <-] & Hh & Hino & -> & Hi2 & Hf2); [done|].
    rewrite Hfdt1 in Hh. injection Hh as <-. cbn in Hino. injection Hino as <-.
    cbn [advance created f_off] in Hi2. rewrite Nat.add_0_l in Hi2.
    rewrite Hdata1, write_at_end in Hi2.
    destruct (decide _) as [_|Hd]; [|done]. run.
    destruct (unread_apart w1 w2 r fdt new _ _ Hap1 Hr2 Hf2 Hi2) as [Hun2 Hap2].
    intros Hloop.
    eapply (IH w2 _ r fdt name new (acc ++ b :: bs)) in Hloop; try done.
    + rewrite Hf2, lookup_insert_eq. unfold advance, created. cbn.
      rewrite length_app. cbn. done.
    + unfold os.data_of. rewrite Hi2, lookup_insert_eq. done.
Qed.

Lemma unread_closed w fd : os.open_file w fd = None -> unread w (FileReader (Some fd)) = [].
Proof. intros H. cbn. by rewrite H. Qed.

(** With an existence check the environment does not fail, the inode of a
    destination just created is one that no file object held. *)
Lemma CopyFileLocal_created (a : Asset) fuel w :
  let path := target_path a in
  let fd := fresh (dom (w_files w)) in
  w_fault w (OpStat path) = None ->
  (∃ msg c w', CopyFileLocal fuel a w = (Ok (Some (ErrWrap msg c)), w'))
  ∨
  (∃ w4 ino mode,
     w_readers w4 = w_readers w ∧
     w_files w4 = <[fd := created path ino]> (w_files w) ∧
     w_inodes w4 = <[ino := {| i_data := []; i_mode := mode |}]> (w_inodes w) ∧
     (∀ fd' h, w_files w !! fd' = Some h -> f_ino h ≠ Some ino) ∧
     CopyFileLocal fuel a w = copy_tail a fuel fd w4).
Proof.
  intros path fd Hfault.
  destruct (CopyFileLocal_steps a fuel w) as (e1 & w1 & Hmk & Hcases).
  fold path in Hmk, Hcases.
  destruct (MkdirAll_spec _ _ _ _ _ Hmk) as (? & [= <-] & Henv1 & _ & Hi1 & Hf1 & Hr1 & _).
  destruct e1 as [c|]; [left; unfold step_error in Hcases; eauto|].
  destruct Hcases as (fi & e2 & e3 & w3 & Hstat & Hrm & Hcases).
  set (w2 := log (OpStat path) w1) in *.
  destruct (remove_if_found_spec _ _ _ _ _ Hrm) as (Henv3 & Hi3 & Hf3 & Hr3 & Hn3 & Hgone).
  destruct e3 as [c|]; [left; unfold step_error in Hcases; eauto|].
  destruct Hcases as (t & e4 & w4 & Hcr & Hcases).
  destruct (Create_spec _ _ _ _ Hcr) as (? & ? & [= <- <-] & Henv4 & _ & Hr4 & _ & Hok4).
  destruct e4 as [c|]; [left; unfold step_error in Hcases; eauto|].
  destruct Hcases as (-> & Htail).
  destruct Hok4 as (ino & mode & _ & Hf4 & Hi4 & _ & Hnew & _); [done|].
  assert (Hfw : w_files w3 = w_files w) by by rewrite Hf3; cbn; rewrite Hf1.
  assert (Hres3 : os.resolve w3 path = os.resolve w2 path) by by apply resolve_same_env.
  assert (Hnone : os.node_at w3 (os.resolve w3 path) = None).
  { rewrite Hres3. destruct e2 as [e2|]; [|by apply Hgone].
    revert Hrm. unfold remove_if_found. intros [= <-].
    destruct (Stat_spec _ _ _ _ Hstat) as (_ & ? & ? & [= <- <-] & _ & Hsome).
    destruct (os.node_at w1 (os.resolve w1 path)) as [n|] eqn:Hnode; [|done].
    exfalso. assert (Some e2 = None) as Hc; [|done]. eapply (Hsome n); [| |done].
    - destruct Henv1 as (_ & _ & _ & ->). done.
    - intros Hp. apply Join_empty in Hp. rewrite Hp in Hmk.
      by apply MkdirAll_empty in Hmk. }
  destruct (Hnew Hnone) as (Hfresh & _).
  right. exists w4, ino, mode. rewrite Hfw in *. fold fd in Hf4, Htail.
  split; [by rewrite Hr4, Hr3; cbn; rewrite Hr1|].
  split; [done|]. split; [by rewrite Hi4, Hi3; cbn; rewrite Hi1|].
  split; [|done].
  intros fd' h Hh Hino. assert (ino ∈ os.used_inos w3) as Hin.
  { eapply used_inos_file; [|exact Hino]. by rewrite Hfw. }
  rewrite Hfresh in Hin. by apply is_fresh in Hin.
Qed.

(** The steps after the creation of a destination whose inode no file
    object held: a copy without error leaves the stream of the asset in the
    destination and nothing in the asset. *)
Lemma copy_tail_content (a : Asset) fuel name ino mode w w4 w' :
  let fd := fresh (dom (w_files w)) in
  w_readers w4 = w_readers w ->
  w_files w4 = <[fd := created name ino]> (w_files w) ->
  w_inodes w4 = <[ino := {| i_data := []; i_mode := mode |}]> (w_inodes w) ->
  (∀ fd' h, w_files w !! fd' = Some h -> f_ino h ≠ Some ino) ->
  copy_tail a fuel fd w4 = (Ok None, w') ->
  os.data_of w' ino = stream w a ∧ stream w' a = [].
Proof.
  intros fd Hr4 Hf4 Hi4 Hfresh.
  assert (Hfdw : w_files w !! fd = None).
  { apply not_elem_of_dom. apply is_fresh. }
  unfold copy_tail.
  destruct (strconv.Atoi (Permissions (asset_base a))) as [perms [e|]]; run; [done|].
  destruct (os.File_Chmod _ _ w4) as [r5 w5] eqn:E5.
  apply File_Chmod_spec in E5 as (e5 & -> & Henv5 & Hn5 & Hr5 & Hf5 & Hd5 & _ & _).
  destruct e5 as [e5|]; run; [done|].
  assert (Hdata4 : os.data_of w4 ino = []).
  { unfold os.data_of. by rewrite Hi4, lookup_insert_eq. }
  assert (Hfd5 : w_files w5 !! fd = Some (created name ino)).
  { by rewrite Hf5, Hf4, lookup_insert_eq. }
  unfold io.Copy.
  destruct (io.copy_loop fuel (Some fd) (Read a) 0 w5) as [res2 w6] eqn:E6.
  destruct res2 as [[n [e6|]]| |]; run; try done.
  intros E7.
  destruct (File_Close_result _ _ _ _ E7) as (? & [= <-] & _ & Hcl & _).
  destruct (Hcl eq_refl) as (h7 & Hfd7 & Hop7).
  apply File_Close_spec in E7 as (? & [= <-] & Henv7 & Hn7 & Hr7 & Hi7 & _ & Hf7 & _).
  unfold stream. destruct (reader (asset_base a)) as [r|] eqn:Hreader.
  2:{ by destruct (copy_loop_no_reader _ _ _ _ _ _ _ Hreader E6) as [_ H2], (H2 n). }
  rewrite (Read_reader a r Hreader) in E6.
  destruct (decide (r = FileReader (Some fd))) as [->|Hne].
  - apply copy_loop_alias with (name := name) (ino := ino) in E6 as [_ H2];
      [|done|by rewrite Hd5].
    destruct (H2 n eq_refl) as (Hd6 & _ & _).
    rewrite (data_of_inodes w6 w') by done. rewrite Hd6.
    rewrite !unread_closed; [done| |by unfold os.open_file; rewrite Hfdw].
    unfold os.open_file. by rewrite Hfd7, Hop7.
  - assert (Hap : apart w r fd ino).
    { destruct r as [[fdr|]|r]; try done. split; [congruence|]. apply Hfresh. }
    destruct (unread_apart w w4 r fd ino _ _ Hap Hr4 Hf4 Hi4) as [Hun4 Hap4].
    assert (Hun5 : unread w5 r = unread w r).
    { rewrite <- Hun4. by apply unread_same. }
    assert (Hap5 : apart w5 r fd ino).
    { destruct r as [[fdr|]|r]; try done. destruct Hap4 as [? Hh]. split; [done|].
      intros h. rewrite Hf5. apply Hh. }
    assert (Hd50 : os.data_of w5 ino = []) by by rewrite Hd5.
    destruct (copy_loop_content fuel w5 0 r fd name ino [] Hfd5 Hd50 Hap5)
      as (res2 & w6' & E6' & _ & H2).
    rewrite E6 in E6'. injection E6' as <- <-.
    destruct (H2 n eq_refl) as (Hd6 & _ & _).
    destruct (copy_loop_drains fuel w5 0 r fd name ino [] n w6 Hfd5 Hd50 Hap5 E6)
      as (Hun6 & Hap6).
    split.
    + rewrite (data_of_inodes w6 w') by done. by rewrite Hd6, Hun5.
    + rewrite <- Hun6. destruct r as [[fdr|]|r]; cbn; [|done|by rewrite Hr7].
      destruct Hap6 as [Hnefd _].
      unfold os.open_file. rewrite Hf7 by congruence.
      destruct (w_files w6 !! fdr) as [hr|]; [|done].
      destruct (f_open hr); [|done]. destruct (f_ino hr); [|done].
      by rewrite (data_of_inodes w6 w').
Qed.

Lemma copies_stream_aux (a : Asset) fuel w w' :
  w_fault w (OpStat (target_path a)) = None ->
  CopyFileLocal fuel a w = (Ok None, w') ->
  same_env w w' ∧
  ∃ ino, os.node_at w' (os.resolve w' (target_path a)) = Some (NFile ino) ∧
         os.data_of w' ino = stream w a ∧ stream w' a = [].
Proof.
  intros Hfault Hrun.
  destruct (CopyFileLocal_frame _ _ _ _ _ Hrun) as (Henv & _ & _ & _ & _ & Hcases).
  split; [done|].
  destruct Hcases as [(_ & _ & ? & ? & [=]) | (ino' & h' & Hnode & Hh' & Hino' & _)].
  destruct (CopyFileLocal_created a fuel w Hfault)
    as [(msg & c & w0 & Hbad) | (w4 & ino & mode & Hr4 & Hf4 & Hi4 & Hfresh & Htail)].
  { rewrite Hbad in Hrun. done. }
  rewrite Htail in Hrun.
  assert (Hfd4 : w_files w4 !! fresh (dom (w_files w)) = Some (created (target_path a) ino)).
  { by rewrite Hf4, lookup_insert_eq. }
  destruct (copy_tail_frame _ _ _ _ _ _ _ _ Hfd4 Hrun)
    as (_ & _ & _ & _ & _ & (h'' & Hh'' & Hino'' & _) & _).
  assert (ino' = ino) as -> by congruence.
  exists ino. split; [done|]. by eapply copy_tail_content.
Qed.

(** X6.  With an existence check that the environment does not fail, a
    copy without error leaves at the destination, new or already there, a
    regular file that holds exactly the bytes the asset had yet to yield,
    and leaves the asset with nothing more to yield. *)
Theorem CopyFileLocal_copies_stream (a : Asset) (fuel : nat) (w w' : World) :
  w_fault w (OpStat (target_path a)) = None ->
  CopyFileLocal fuel a w = (Ok None, w') ->
  ∃ ino, os.node_at w' (os.resolve w' (target_path a)) = Some (NFile ino) ∧
         os.data_of w' ino = stream w a ∧ stream w' a = [].
Proof. intros Hfault Hrun. by apply copies_stream_aux in Hrun as [_ ?]. Qed.

Lemma CopyFileLocal_copies_stream_witness :
  let w := with_buffer "key: value" empty_world in
  let w' := snd (CopyFileLocal 2 config_asset w) in
  ∃ ino, os.node_at w' (os.resolve w' "/tmp/out/config.yaml") = Some (NFile ino) ∧
         os.data_of w' ino = bytes_of "key: value" ∧ stream w' config_asset = [].
Proof.
  intros w w'.
  apply (CopyFileLocal_copies_stream config_asset 2 w w').
  - reflexivity.
  - vm_compute. reflexivity.
Defined.

(** X7.  An asset is good for one copy.  With an existence check that
    the environment does not fail, when the same asset is copied a second
    time, and both copies end without error, the destination ends up
    empty: the second copy replaces what the first one wrote by the nothing
    that is left in the reader. *)
Theorem CopyFileLocal_twice_empties (a : Asset) (fuel1 fuel2 : nat) (w w' w'' : World) :
  w_fault w (OpStat (target_path a)) = None ->
  CopyFileLocal fuel1 a w = (Ok None, w') ->
  CopyFileLocal fuel2 a w' = (Ok None, w'') ->
  ∃ ino, os.node_at w'' (os.resolve w'' (target_path a)) = Some (NFile ino) ∧
         os.data_of w'' ino = [].
Proof.
  intros Hfault H1 H2.
  apply copies_stream_aux in H1 as ((_ & _ & _ & Hf) & ino1 & _ & _ & Hempty); [|done].
  apply copies_stream_aux in H2 as (_ & ino2 & Hnode & Hdata & _); [|by rewrite Hf].
  exists ino2. split; [done|]. by rewrite Hdata.
Qed.

Lemma CopyFileLocal_twice_empties_witness :
  let w := with_buffer "key: value" empty_world in
  let w' := snd (CopyFileLocal 2 config_asset w) in
  let w'' := snd (CopyFileLocal 2 config_asset w') in
  ∃ ino, os.node_at w'' (os.resolve w'' "/tmp/out/config.yaml") = Some (NFile ino) ∧
         os.data_of w'' ino = [].
Proof.
  intros w w' w''.
  apply (CopyFileLocal_twice_empties config_asset 2 2 w w' w'').
  - reflexivity.
  - vm_compute. reflexivity.
  - vm_compute. reflexivity.
Defined.

(** *** The errors of the steps *)

Lemma MkdirAll_error name perm w e w1 :
  os.MkdirAll name perm w = (Ok (Some e), w1) -> ∃ o p c, e = ErrPath o p c.
Proof.
  unfold os.MkdirAll. run.
  destruct (w_fault w (OpMkdirAll name)); run; [intros [= <- <-]; eauto|].
  destruct (decide _); run; [intros [= <- <-]; eauto|].
  destruct (existsb _ _); run; [intros [= <- <-]; eauto|]. done.
Qed.

Lemma Remove_error name w e w1 :
  os.Remove name w = (Ok (Some e), w1) -> ∃ o p c, e = ErrPath o p c.
Proof.
  unfold os.Remove. run.
  destruct (w_fault w (OpRemove name)); run; [intros [= <- <-]; eauto|].
  destruct (decide _); run; [intros [= <- <-]; eauto|].
  destruct (os.node_at _ _) as [[|ino]|]; run; [|done|intros [= <- <-]; eauto].
  destruct (decide _); run; [intros [= <- <-]; eauto|].
  destruct (os.has_entries _ _); run; [intros [= <- <-]; eauto|]. done.
Qed.

Lemma Create_error name w t e w1 :
  os.Create name w = (Ok (t, Some e), w1) -> ∃ o p c, e = ErrPath o p c.
Proof.
  unfold os.Create. run.
  destruct (w_fault w (OpCreate name)); run; [intros [= <- <- <-]; eauto|].
  destruct (decide _); run; [intros [= <- <- <-]; eauto|].
  destruct (os.node_at _ _) as [[|ino]|]; run; [intros [= <- <- <-]; eauto|done|].
  destruct (os.node_at _ _) as [[|i]|]; run; [done|intros [= <- <- <-]; eauto..].
Qed.

Lemma Chmod_error fd mode w e w1 :
  os.File_Chmod (Some fd) mode w = (Ok (Some e), w1) -> ∃ o p c, e = ErrPath o p c.
Proof.
  unfold os.File_Chmod. run.
  destruct (os.open_file w fd) as [h|]; run; [|intros [= <- <-]; eauto].
  destruct (w_fault w (OpChmod fd)); run; [intros [= <- <-]; eauto|].
  destruct (f_ino h); run; done.
Qed.

(** The outcomes of the copy of an asset without a reader. *)
Lemma without_reader_outcomes (a : Asset) (fuel : nat) (w : World) :
  reader (asset_base a) = None -> (0 < fuel)%nat ->
  let path := target_path a in
  ∃ res w', CopyFileLocal fuel a w = (res, w') ∧
    ((res = match a with
            | OfFile _ =>
                Ok (Some (step_error copy_error_format (ArgString path) reader_uninitialized))
            | OfMemory _ => Panic nil_dereference
            end ∧
      ∃ ino n, os.node_at w' (os.resolve w' path) = Some (NFile ino) ∧
               os.data_of w' ino = [] ∧
               strconv.Atoi (Permissions (asset_base a)) = (n, None) ∧
               mode_of w' ino = os.syscallMode (os.FileMode n))
     ∨ (∃ msg o p c, res = Ok (Some (ErrWrap msg (ErrPath o p c))))
     ∨ (∃ msg s ne, res = Ok (Some (ErrWrap msg (ErrNum "Atoi" s ne))))).
Proof.
  intros Hreader Hfuel path.
  destruct (CopyFileLocal_steps a fuel w) as (e1 & w1 & Hmk & Hcases).
  fold path in Hmk, Hcases.
  destruct e1 as [c|].
  { apply MkdirAll_error in Hmk as (o & p & c' & ->).
    do 2 eexists. split; [exact Hcases|]. right. left. unfold step_error. eauto 6. }
  destruct Hcases as (fi & e2 & e3 & w3 & Hstat & Hrm & Hcases).
  destruct e3 as [c|].
  { assert (∃ o p c', c = ErrPath o p c') as (o & p & c' & ->).
    { revert Hrm. unfold remove_if_found. destruct e2; [done|]. apply Remove_error. }
    do 2 eexists. split; [exact Hcases|]. right. left. unfold step_error. eauto 6. }
  destruct Hcases as (t & e4 & w4 & Hcr & Hcases).
  destruct e4 as [c|].
  { apply Create_error in Hcr as (o & p & c' & ->).
    do 2 eexists. split; [exact Hcases|]. right. left. unfold step_error. eauto 6. }
  destruct Hcases as (-> & ->).
  destruct (Create_spec _ _ _ _ Hcr)
    as (? & ? & [= <- <-] & Henv4 & _ & _ & _ & Hok4).
  destruct Hok4 as (ino & mode & _ & Hf4 & Hi4 & Hnode4 & _); [done|].
  set (fd := fresh (dom (w_files w3))) in *.
  assert (Hfd4 : w_files w4 !! fd = Some (created path ino)).
  { by rewrite Hf4, lookup_insert_eq. }
  unfold copy_tail. fold path.
  destruct (strconv.Atoi (Permissions (asset_base a))) as [perms [e|]] eqn:Hperm; run.
  { apply Atoi_error in Hperm as (ne & -> & _).
    do 2 eexists. split; [done|]. right. right. cbn. eauto. }
  destruct (os.File_Chmod _ _ w4) as [r5 w5] eqn:E5.
  destruct (File_Chmod_frame _ _ _ _ _ _ _ Hfd4 eq_refl E5) as (_ & Hm5).
  pose proof E5 as E5'.
  apply File_Chmod_spec in E5 as (e5 & -> & Henv5 & Hn5 & _ & _ & Hd5 & _ & _).
  destruct e5 as [e5|]; run.
  { apply Chmod_error in E5' as (o & p & c' & ->).
    do 2 eexists. split; [done|]. right. left. cbn. eauto 6. }
  assert (Hdest : ∃ ino n, os.node_at w5 (os.resolve w5 path) = Some (NFile ino) ∧
            os.data_of w5 ino = [] ∧ (perms, @None error) = (n, None) ∧
            mode_of w5 ino = os.syscallMode (os.FileMode n)).
  { exists ino, perms. split.
    - rewrite (resolve_same_env w3 w5) by eauto using same_env_trans.
      by rewrite (node_at_names w4 w5).
    - split; [|by split; [|apply Hm5]].
      rewrite Hd5. unfold os.data_of. by rewrite Hi4, lookup_insert_eq. }
  unfold io.Copy. destruct fuel as [|fuel]; [lia|]. cbn [io.copy_loop]. run.
  destruct a as [[b]|[b]]; cbn in Hreader |- *;
    unfold FileAsset_Read, MemoryAsset_Read; cbn; rewrite Hreader; run.
  - do 2 eexists. split; [done|]. left. done.
  - do 2 eexists. split; [done|]. left. done.
Qed.

(** X8.  An asset without a reader is never copied: no copy of it ends
    without error.  And when the five steps before the copy loop succeed
    (making the directories, removing the old file if the check found one,
    creating the destination, converting the permissions, changing the
    mode), the copy of a disk asset returns the copy error that wraps the
    error of the uninitialized reader, and the copy of a memory asset
    panics with the nil dereference; the state is the one [Chmod] left:
    the destination is there, empty, with the permission bits of the
    parsed integer. *)
Theorem CopyFileLocal_without_reader (a : Asset) (fuel : nat) (w : World) :
  reader (asset_base a) = None -> (0 < fuel)%nat ->
  let dir := TargetDir (asset_base a) in
  let path := target_path a in
  fst (CopyFileLocal fuel a w) ≠ Ok None ∧
  ∀ w1 fi e2 w2 w3 t w4 n w5,
    os.MkdirAll dir os.ModePerm w = (Ok None, w1) ->
    os.Stat path w1 = (Ok (fi, e2), w2) ->
    remove_if_found path e2 w2 = (Ok None, w3) ->
    os.Create path w3 = (Ok (t, None), w4) ->
    strconv.Atoi (Permissions (asset_base a)) = (n, None) ->
    os.File_Chmod t (os.FileMode n) w4 = (Ok None, w5) ->
    CopyFileLocal fuel a w =
      (match a with
       | OfFile _ =>
           Ok (Some (step_error copy_error_format (ArgString path) reader_uninitialized))
       | OfMemory _ => Panic nil_dereference
       end, w5) ∧
    ∃ ino, os.node_at w5 (os.resolve w5 path) = Some (NFile ino) ∧
           os.data_of w5 ino = [] ∧
           perm_bits (mode_of w5 ino) = perm_bits (os.FileMode n).
Proof.
  intros Hreader Hfuel dir path. split.
  { destruct (without_reader_outcomes a fuel w Hreader Hfuel)
      as (res & w' & -> & [[-> _] | [(? & ? & ? & ? & ->) | (? & ? & ? & ->)]]); cbn.
    - by destruct a.
    - done.
    - done. }
  intros w1 fi e2 w2 w3 t w4 n w5 Hmk Hst Hrm Hcr Hperm Hch.
  destruct (prepared_destination a w w1 fi e2 w2 w3 t w4 Hmk Hst Hrm Hcr)
    as (-> & Hrun & _ & Henv4 & _ & ino & mode & Hf4 & Hnode4 & Hi4).
  fold path in Hrun, Hf4, Hnode4.
  set (fd := fresh (dom (w_files w))) in *.
  assert (Hfd4 : w_files w4 !! fd = Some (created path ino)).
  { by rewrite Hf4, lookup_insert_eq. }
  destruct (File_Chmod_frame _ _ _ _ _ _ _ Hfd4 eq_refl Hch) as (_ & Hm5).
  destruct (File_Chmod_spec _ _ _ _ _ Hch) as (? & [= <-] & Henv5 & Hn5 & _ & _ & Hd5 & _).
  split.
  { rewrite Hrun. unfold copy_tail. fold path. rewrite Hperm. run. rewrite Hch. run.
    unfold io.Copy. destruct fuel as [|fuel]; [lia|]. cbn [io.copy_loop]. run.
    destruct a as [[b]|[b]]; cbn in Hreader |- *;
      unfold FileAsset_Read, MemoryAsset_Read; cbn; rewrite Hreader; by run. }
  exists ino. split.
  { rewrite (resolve_same_env w4 w5) by done. by rewrite (node_at_names w4 w5). }
  split.
  { rewrite Hd5. unfold os.data_of. by rewrite Hi4, lookup_insert_eq. }
  rewrite (Hm5 eq_refl). apply perm_bits_syscallMode.
Qed.

Lemma CopyFileLocal_without_reader_witness :
  let w := stale_world in
  let w1 := snd (os.MkdirAll "/tmp/out" os.ModePerm w) in
  let w2 := snd (os.Stat "/tmp/out/config.yaml" w1) in
  let w3 := snd (os.Remove "/tmp/out/config.yaml" w2) in
  let w4 := snd (os.Create "/tmp/out/config.yaml" w3) in
  let w5 := snd (os.File_Chmod (Some 0%nat) (os.FileMode 644) w4) in
  fst (CopyFileLocal 1 unset_memory_asset w) ≠ Ok None ∧
  CopyFileLocal 1 unset_memory_asset w = (Panic nil_dereference, w5) ∧
  ∃ ino, os.node_at w5 (os.resolve w5 "/tmp/out/config.yaml") = Some (NFile ino) ∧
         os.data_of w5 ino = [] ∧
         perm_bits (mode_of w5 ino) = perm_bits (os.FileMode 644).
Proof.
  intros w w1 w2 w3 w4 w5.
  destruct (CopyFileLocal_without_reader unset_memory_asset 1 w eq_refl) as [Hnever Hsteps];
    [lia|].
  split; [exact Hnever|].
  refine (Hsteps w1 (Some {| os.Size := 27; os.IsDir := false |}) None w2 w3
            (Some 0%nat) w4 644 w5 _ _ _ _ _ _); vm_compute; reflexivity.
Defined.

Example unset_reader_outcomes :
  fst (CopyFileLocal 1 unset_memory_asset stale_world) = Panic nil_dereference ∧
  fst (CopyFileLocal 1 unset_disk_asset stale_world) =
    Ok (Some (step_error copy_error_format (ArgString "/tmp/out/config.yaml")
                reader_uninitialized)) ∧
  file_at (snd (CopyFileLocal 1 unset_disk_asset stale_world)) "/tmp/out/config.yaml"
    = Some {| i_data := []; i_mode := octal 2 0 4 |}.
Proof. repeat split; vm_compute; reflexivity. Qed.

(** *** The length of a disk asset *)

Lemma GetLength_value (f : FileAsset) w :
  fst (GetLength f w) = Ok (reported_length w (AssetName (FileAsset_base f))).
Proof.
  set (name := AssetName (FileAsset_base f)).
  destruct (GetLength_run f w) as (n & w' & Hrun & _ & _ & _ & _ & Hcases).
  fold name in Hcases.
  change (GetLength f w) with (FileAsset_GetLength f w). rewrite Hrun. cbn. f_equal.
  unfold reported_length.
  destruct Hcases as [(e & Ho & -> & _) | (node & w1 & Hnode & Ho & _ & _ & Hst)].
  - revert Ho. unfold os.Open. run.
    destruct (w_fault w (OpOpen name)); run; [done|].
    destruct (decide _); run; [done|].
    change (os.node_at (log (OpOpen name) w) (os.resolve (log (OpOpen name) w) name))
      with (os.node_at w (os.resolve w name)).
    destruct (os.node_at w (os.resolve w name)); run; done.
  - set (fd := fresh (dom (w_files w))) in *.
    assert (w1 = with_files (<[fd := opened name node]> (w_files w)) (log (OpOpen name) w)
            ∧ w_fault w (OpOpen name) = None ∧ name ≠ "") as (-> & Hfo & Hne).
    { revert Ho. unfold os.Open. run.
      destruct (w_fault w (OpOpen name)); run; [done|].
      destruct (decide _); run; [done|].
      change (os.node_at (log (OpOpen name) w) (os.resolve (log (OpOpen name) w) name))
        with (os.node_at w (os.resolve w name)).
      rewrite Hnode. run. by intros [= <-]. }
    rewrite Hfo. destruct (decide _); [done|]. rewrite Hnode.
    assert (Hstat : os.File_Stat (Some fd)
              (with_files (<[fd := opened name node]> (w_files w)) (log (OpOpen name) w)) =
            (Ok match w_fault w (OpFstat fd) with
                | Some e => (None, Some (ErrPath "stat" name e))
                | None => (Some (os.info_of w node), None)
                end,
             log (OpFstat fd)
               (with_files (<[fd := opened name node]> (w_files w)) (log (OpOpen name) w)))).
    { unfold os.File_Stat. run. unfold os.open_file. cbn. rewrite lookup_insert_eq. cbn.
      run. cbn. destruct (w_fault w (OpFstat fd)); run; [done|]. by destruct node. }
    rewrite Hstat in Hst.
    destruct (w_fault w (OpFstat fd)).
    + by destruct Hst as [(e' & _ & ->) | ([=] & _)].
    + by destruct Hst as [(e' & [=] & _) | (_ & ->)].
Qed.

(** X9.  The length of a disk asset is the size of its file, not what is
    left to read: a read, of any size and with any outcome, does not change
    the length the asset reports. *)
Theorem Read_keeps_length (f : FileAsset) (p : nat) (w : World) :
  fst (GetLength f (snd (Read f p w))) = fst (GetLength f w).
Proof.
  rewrite !GetLength_value. f_equal.
  destruct (Read f p w) as [res w1] eqn:E. cbn [snd].
  assert (same_env w w1 ∧ w_names w1 = w_names w ∧ w_inodes w1 = w_inodes w ∧
          dom (w_files w1) = dom (w_files w)) as ((Hc & _ & Hd & Hfa) & Hn & Hi & Hdom).
  { revert E. cbn. unfold FileAsset_Read.
    destruct (reader (FileAsset_base f)) as [r|]; [|intros [= <- <-]; by repeat split].
    intros E. pose proof (Reader_Read_frame _ _ _ _ _ E) as (_ & He & Hn & Hi & Hk).
    repeat (split; [done|]). revert E.
    destruct r as [[fd|]|r]; cbn [Reader_Read].
    - unfold os.File_Read. run.
      destruct (os.open_file w fd) as [h|] eqn:Hopen; [|by intros [= <- <-]].
      apply open_file_Some in Hopen as [Hfd _].
      destruct (decide _); run; [by intros [= <- <-]|].
      destruct (w_fault w (OpRead fd)); run; [by intros [= <- <-]|].
      destruct (f_ino h); run; [|by intros [= <- <-]].
      destruct (take _ _); run; [by intros [= <- <-]|].
      intros [= <- <-]. cbn. rewrite dom_insert_L. apply elem_of_dom_2 in Hfd.
      apply subseteq_union_1_L. by apply singleton_subseteq_l.
    - unfold os.File_Read. run. by intros [= <- <-].
    - unfold bytes_Reader_Read. run.
      destruct (default [] (w_readers w !! r)); run; by intros [= <- <-]. }
  unfold reported_length, os.resolve, os.node_at, os.info_of, os.data_of.
  by rewrite Hfa, Hc, Hn, Hdom, Hd, Hi.
Qed.

Lemma NewFileAsset_inv (assetName targetDir targetName permissions : string)
    (w w1 : World) (f : FileAsset) (node : Node) :
  NewFileAsset assetName targetDir targetName permissions w = (Ok (Some f, None), w1) ->
  os.node_at w (os.resolve w assetName) = Some node ->
  let fd := fresh (dom (w_files w)) in
  w_fault w (OpOpen assetName) = None ∧ assetName ≠ "" ∧
  f = {| FileAsset_base :=
           {| data := []; reader := Some (FileReader (Some fd));
              Length := 0; AssetName := assetName; TargetDir := targetDir;
              TargetName := targetName; Permissions := permissions |} |} ∧
  w1 = with_files (<[fd := opened assetName node]> (w_files w)) (log (OpOpen assetName) w).
Proof.
  intros Hnew Hnode fd. revert Hnew. unfold NewFileAsset, os.Open. cbn [AssetName]. run.
  destruct (w_fault w (OpOpen assetName)); run; [done|].
  destruct (decide _); run; [done|].
  change (os.node_at (log (OpOpen assetName) w)
            (os.resolve (log (OpOpen assetName) w) assetName))
    with (os.node_at w (os.resolve w assetName)).
  rewrite Hnode. run. by intros [= <- <-].
Qed.

Lemma fresh_asset_stream assetName targetDir targetName permissions w ino :
  let fd := fresh (dom (w_files w)) in
  stream (with_files (<[fd := opened assetName (NFile ino)]> (w_files w))
            (log (OpOpen assetName) w))
    (OfFile {| FileAsset_base :=
       {| data := []; reader := Some (FileReader (Some fd));
          Length := 0; AssetName := assetName; TargetDir := targetDir;
          TargetName := targetName; Permissions := permissions |} |})
  = os.data_of w ino.
Proof.
  intros fd. unfold stream. cbn. unfold os.open_file. cbn. rewrite lookup_insert_eq. cbn.
  by rewrite drop_0.
Qed.

(** X10.  A disk asset just built from a regular file has the whole file
    as its stream.  Its length query opens the file again by name and asks
    the open file for its size: when that second open and that stat both
    succeed, the length reported is the number of bytes of the stream. *)
Theorem NewFileAsset_stream_and_length (assetName targetDir targetName permissions : string)
    (w w1 : World) (f : FileAsset) (ino : nat) :
  NewFileAsset assetName targetDir targetName permissions w = (Ok (Some f, None), w1) ->
  os.node_at w (os.resolve w assetName) = Some (NFile ino) ->
  stream w1 (OfFile f) = os.data_of w ino ∧
  ∀ file fi w2 w3,
    os.Open (AssetName (FileAsset_base f)) w1 = (Ok (file, None), w2) ->
    os.File_Stat file w2 = (Ok (Some fi, None), w3) ->
    os.Size fi = Z.of_nat (length (stream w1 (OfFile f))) ∧
    fst (GetLength f w1) = Ok (Z.of_nat (length (stream w1 (OfFile f)))).
Proof.
  intros Hnew Hnode.
  destruct (NewFileAsset_inv _ _ _ _ _ _ _ _ Hnew Hnode) as (Hfault & Hne & Hf & Hw1).
  assert (Hstream : stream w1 (OfFile f) = os.data_of w ino).
  { rewrite Hf, Hw1. apply fresh_asset_stream. }
  split; [exact Hstream|]. intros file fi w2 w3 Hopen Hstat.
  assert (Hnode1 : os.node_at w1 (os.resolve w1 assetName) = Some (NFile ino)).
  { by rewrite Hw1. }
  assert (Hdata1 : os.data_of w1 ino = os.data_of w ino) by by rewrite Hw1.
  assert (Hname : AssetName (FileAsset_base f) = assetName) by by rewrite Hf.
  destruct (GetLength_run f w1) as (n & w' & Hrun & _ & _ & _ & _ & Hcases).
  rewrite Hname in Hopen, Hcases.
  change (GetLength f w1) with (FileAsset_GetLength f w1). rewrite Hrun. cbn [fst].
  destruct Hcases as [(e & Ho & _) | (node & w1' & Hnode' & Ho & _ & _ & Hst)].
  { rewrite Ho in Hopen. done. }
  rewrite Ho in Hopen. injection Hopen as <- <-.
  rewrite Hnode1 in Hnode'. injection Hnode' as <-.
  destruct Hst as [(e & Hs & _) | (Hs & ->)]; rewrite Hs in Hstat; [done|].
  injection Hstat as <- _.
  rewrite Hstream. cbn. by rewrite Hdata1.
Qed.

Lemma NewFileAsset_stream_and_length_witness :
  stream opened_config_world (OfFile disk_config_asset) = bytes_of "key: value" ∧
  fst (GetLength disk_config_asset opened_config_world) = Ok 10.
Proof.
  destruct (NewFileAsset_stream_and_length "config.yaml" "/tmp/out" "config.yaml" "0644"
              config_world opened_config_world disk_config_asset 0) as [H1 H2].
  - vm_compute. reflexivity.
  - vm_compute. reflexivity.
  - split.
    + rewrite H1. vm_compute. reflexivity.
    + destruct (H2 (Some 1%nat) {| os.Size := 10; os.IsDir := false |}
                  (snd (os.Open "config.yaml" opened_config_world))
                  (snd (os.File_Stat (Some 1%nat)
                          (snd (os.Open "config.yaml" opened_config_world)))))
        as [_ H3].
      * vm_compute. reflexivity.
      * vm_compute. reflexivity.
      * rewrite H3, H1. vm_compute. reflexivity.
Defined.

(** X11.  From disk to disk: an asset built by [NewFileAsset] from a
    regular file and then copied without error leaves at the destination a
    file with the bytes the source file had when the asset was built, also
    when the destination is the source file itself. *)
Theorem NewFileAsset_then_copy (assetName targetDir targetName permissions : string)
    (fuel : nat) (w w1 w' : World) (f : FileAsset) (ino : nat) :
  let path := filepath.Join targetDir targetName in
  NewFileAsset assetName targetDir targetName permissions w = (Ok (Some f, None), w1) ->
  os.node_at w (os.resolve w assetName) = Some (NFile ino) ->
  w_fault w (OpStat path) = None ->
  CopyFileLocal fuel (OfFile f) w1 = (Ok None, w') ->
  ∃ ino', os.node_at w' (os.resolve w' path) = Some (NFile ino') ∧
          os.data_of w' ino' = os.data_of w ino.
Proof.
  intros path Hnew Hnode Hstat Hcopy.
  destruct (NewFileAsset_inv _ _ _ _ _ _ _ _ Hnew Hnode) as (_ & _ & -> & ->).
  apply copies_stream_aux in Hcopy as (_ & ino' & Hnode' & Hdata & _); [|exact Hstat].
  exists ino'. split; [exact Hnode'|]. rewrite Hdata. apply fresh_asset_stream.
Qed.

Lemma NewFileAsset_then_copy_witness :
  let w := add_file "/tmp/out/config.yaml" "key: value" 420 empty_world in
  let w1 := snd (NewFileAsset "/tmp/out/config.yaml" "/tmp/out" "config.yaml" "0644" w) in
  let f := {| FileAsset_base :=
             {| data := []; reader := Some (FileReader (Some 0%nat)); Length := 0;
                AssetName := "/tmp/out/config.yaml"; TargetDir := "/tmp/out";
                TargetName := "config.yaml"; Permissions := "0644" |} |} in
  let w' := snd (CopyFileLocal 2 (OfFile f) w1) in
  ∃ ino', os.node_at w' (os.resolve w' "/tmp/out/config.yaml") = Some (NFile ino') ∧
          os.data_of w' ino' = os.data_of w 0.
Proof.
  intros w w1 f w'.
  apply (NewFileAsset_then_copy "/tmp/out/config.yaml" "/tmp/out" "config.yaml" "0644"
           2 w w1 w' f 0).
  - vm_compute. reflexivity.
  - vm_compute. reflexivity.
  - reflexivity.
  - vm_compute. reflexivity.
Defined.

(** X12.  The length query of a disk asset leaves no file open behind it:
    every file object that is open after the query was there before it,
    the same. *)
Theorem GetLength_leaves_no_open_file (f : FileAsset) (w : World) :
  let w' := snd (GetLength f w) in
  ∀ fd h, w_files w' !! fd = Some h -> f_open h = true -> w_files w !! fd = Some h.
Proof.
  destruct (GetLength_run f w) as (n & w' & Hrun & _ & _ & _ & _ & Hcases).
  change (GetLength f w) with (FileAsset_GetLength f w). rewrite Hrun. cbn.
  intros fd h Hh Hopen.
  destruct Hcases as [(e & _ & _ & Hf & _) | (node & w1 & _ & _ & Hf & _)];
    rewrite Hf in Hh; [done|].
  destruct (decide (fresh (dom (w_files w)) = fd)) as [<-|Hne].
  - rewrite lookup_insert_eq in Hh. injection Hh as <-. done.
  - by rewrite lookup_insert_ne in Hh.
Qed.

Lemma GetLength_leaves_no_open_file_witness :
  w_files opened_config_world !! 0%nat = Some (opened "config.yaml" (NFile 0)).
Proof.
  apply (GetLength_leaves_no_open_file disk_config_asset opened_config_world 0%nat
           (opened "config.yaml" (NFile 0))).
  - vm_compute. reflexivity.
  - reflexivity.
Defined.

(** X13.  [NewFileAsset] checks the asset path and nothing else: whatever
    the target directory, the target name and the permission string are,
    it leaves the same state and fails with the same error or succeeds
    alike; and when it fails it has made no file object and changed no name
    and no inode. *)
Theorem NewFileAsset_checks_only_the_path
    (assetName d t p d' t' p' : string) (w : World) :
  let run := NewFileAsset assetName d t p w in
  let run' := NewFileAsset assetName d' t' p' w in
  snd run = snd run' ∧
  (∀ e, fst run = Ok (None, e) <-> fst run' = Ok (None, e)) ∧
  (∀ e, fst run = Ok (None, e) ->
        w_files (snd run) = w_files w ∧ w_names (snd run) = w_names w ∧
        w_inodes (snd run) = w_inodes w).
Proof.
  cbn zeta. unfold NewFileAsset. cbn [AssetName]. run.
  destruct (Open_spec assetName w) as [(e & Hopen & _) | (node & Hnode & Hopen)];
    rewrite Hopen; cbn beta iota; run; cbn.
  - split; [done|]. split; [done|]. done.
  - split; [done|]. split; [|done]. intros e. split; intros [=].
Qed.


(** X14.  An empty target directory is refused before anything is done:
    [os.MkdirAll] fails on the empty path, the copy returns its error
    wrapped as the error of making the directories, and no name, inode,
    file object or reader has changed. *)
Theorem CopyFileLocal_empty_target_dir (a : Asset) (fuel : nat) (w : World) :
  TargetDir (asset_base a) = "" ->
  ∃ e w',
    CopyFileLocal fuel a w =
      (Ok (Some (ErrWrap "error making dirs for " (ErrPath "mkdir" "" e))), w') ∧
    w_names w' = w_names w ∧ w_inodes w' = w_inodes w ∧
    w_files w' = w_files w ∧ w_readers w' = w_readers w.
Proof.
  intros Hdir.
  destruct (CopyFileLocal_steps a fuel w) as (e1 & w1 & Hmk & Hcases).
  rewrite Hdir in Hmk, Hcases.
  destruct (MkdirAll_spec _ _ _ _ _ Hmk) as (? & [= <-] & _ & _ & Hi & Hf & Hr & _).
  destruct e1 as [c|]; [|by apply MkdirAll_empty in Hmk].
  assert (∃ e, c = ErrPath "mkdir" "" e ∧ w_names w1 = w_names w) as (e & -> & Hnames).
  { revert Hmk. unfold os.MkdirAll. run.
    destruct (w_fault w (OpMkdirAll "")); run; intros [= <- <-]; eauto. }
  exists e, w1. split; [exact Hcases|]. done.
Qed.

Lemma CopyFileLocal_empty_target_dir_witness :
  ∃ e w',
    CopyFileLocal 1
      (OfMemory {| MemoryAsset_base :=
         {| data := []; reader := Some (BytesReader 0); Length := 0;
            AssetName := "a"; TargetDir := ""; TargetName := "a";
            Permissions := "0644" |} |}) stale_world =
      (Ok (Some (ErrWrap "error making dirs for " (ErrPath "mkdir" "" e))), w') ∧
    w_names w' = w_names stale_world ∧ w_inodes w' = w_inodes stale_world ∧
    w_files w' = w_files stale_world ∧ w_readers w' = w_readers stale_world.
Proof.
  apply (CopyFileLocal_empty_target_dir
           (OfMemory {| MemoryAsset_base :=
              {| data := []; reader := Some (BytesReader 0); Length := 0;
                 AssetName := "a"; TargetDir := ""; TargetName := "a";
                 Permissions := "0644" |} |}) 1 stale_world).
  reflexivity.
Defined.
